(** * ResponsesService: a shallow embedding of the Responses-API client

    The development follows [ResponsesService] (the TypeScript class that
    talks to [./v1/responses]): the request builder, the message
    converter, the stream and non-stream response handlers, the usage
    adapter and the error parser.

    - JavaScript strings are sequences of UTF-16 code units ([jsstring]).
    - Values that come out of [JSON.parse] are untyped ([JSValue]); what
      the engine itself provides (the number type, [JSON.parse], the
      [TextDecoder], the wording of engine errors) is a [Runtime].
    - Callbacks, the abort signal and the network are the environment:
      every callback invocation is recorded in a [World], and a
      [Callback] tells how the caller's function reacts (it returns or
      throws, it aborts the request or not). *)

From Stdlib Require Import NArith Ascii String DecimalString.
From stdpp Require Import base decidable option list numbers strings gmap.

Local Open Scope N_scope.
#[local] Set Warnings "-register-all".

(** ** Strings *)

(** A JavaScript string: its UTF-16 code units. *)
Definition jsstring := list N.

(** The code units of an ASCII literal. *)
Definition js (s : string) : jsstring :=
  N_of_ascii <$> list_ascii_of_string s.

(** [s.startsWith(p)] *)
Fixpoint startsWith (s p : jsstring) {struct p} : bool :=
  match p, s with
  | [], _ => true
  | _ :: _, [] => false
  | c :: p', d :: s' => bool_decide (c = d) && startsWith s' p'
  end.

(** [s.slice(n)] for a non-negative [n] *)
Definition slice (n : nat) (s : jsstring) : jsstring := drop n s.

(** [s.includes(p)] *)
Fixpoint includes (s p : jsstring) : bool :=
  startsWith s p ||
  match s with
  | [] => false
  | _ :: s' => includes s' p
  end.

(** [s === t] on strings *)
Definition str_eqb (s t : jsstring) : bool := bool_decide (s = t).

(** White space and line terminators of ECMAScript, the code units that
    [String.prototype.trim] removes. *)
Definition isWhiteSpace (c : N) : bool :=
  bool_decide (c ∈ [9; 10; 11; 12; 13; 32; 160; 5760; 8232; 8233; 8239; 8287;
                    12288; 65279])
  || ((8192 <=? c) && (c <=? 8202)).

Fixpoint trimStart (s : jsstring) : jsstring :=
  match s with
  | c :: s' => if isWhiteSpace c then trimStart s' else s
  | [] => []
  end.

(** [s.trim()] *)
Definition trim (s : jsstring) : jsstring :=
  reverse (trimStart (reverse (trimStart s))).

(** [!s.trim()] *)
Definition blank (s : jsstring) : bool := bool_decide (trim s = []).

(** [s.split('\n')]: the separator is the single code unit 10; the result
    is never empty. *)
Fixpoint split_newline (s : jsstring) : list jsstring :=
  match s with
  | [] => [[]]
  | c :: s' =>
      if bool_decide (c = 10) then [] :: split_newline s'
      else match split_newline s' with
           | l :: ls => (c :: l) :: ls
           | [] => [[c]]
           end
  end.

(** [a.pop()]: the last element ([None] for [undefined]) and the array
    that is left. *)
Definition pop {A} (a : list A) : option A * list A :=
  (last a, removelast a).

(** Decimal rendering of a non-negative integer, as [String(n)] gives. *)
Definition decimal (n : N) : jsstring :=
  js (NilZero.string_of_uint (N.to_uint n)).

(** ** Untyped values *)

Inductive JSValue {num : Type} : Type :=
| JUndefined
| JNull
| JBool (b : bool)
| JNum (n : num)
| JStr (s : jsstring)
| JArr (items : list JSValue)
| JObj (props : list (jsstring * JSValue)).
Arguments JSValue : clear implicits.

(** Induction over a value and the values inside it. *)
Section ValueInduction.
Context {num : Type} (P : JSValue num → Prop).
Context (Hundefined : P JUndefined) (Hnull : P JNull)
        (Hbool : ∀ b, P (JBool b)) (Hnum : ∀ n, P (JNum n)) (Hstr : ∀ s, P (JStr s))
        (Harr : ∀ items, Forall P items → P (JArr items))
        (Hobj : ∀ props, Forall (λ kv, P kv.2) props → P (JObj props)).

Fixpoint value_ind (v : JSValue num) : P v :=
  match v with
  | JUndefined => Hundefined
  | JNull => Hnull
  | JBool b => Hbool b
  | JNum n => Hnum n
  | JStr s => Hstr s
  | JArr items =>
      Harr items
        ((fix all (l : list (JSValue num)) : Forall P l :=
            match l with
            | [] => @List.Forall_nil _ _
            | x :: rest => @List.Forall_cons _ _ x rest (value_ind x) (all rest)
            end) items)
  | JObj props =>
      Hobj props
        ((fix all (l : list (jsstring * JSValue num)) : Forall (λ kv, P kv.2) l :=
            match l with
            | [] => @List.Forall_nil _ _
            | kv :: rest => @List.Forall_cons _ _ kv rest (value_ind kv.2) (all rest)
            end) props)
  end.
End ValueInduction.

(** An [Error] instance, as far as the service looks at it. *)
Record JSError := mkError { name : jsstring; message : jsstring }.

(** What a [throw] carries: an [Error] instance or any other value. *)
Inductive Thrown {num : Type} : Type :=
| ThrowError (e : JSError)
| ThrowOther (v : JSValue num).
Arguments Thrown : clear implicits.

Inductive Result {num : Type} (A : Type) : Type :=
| Ok (a : A)
| Throw (t : Thrown num).
Arguments Ok {num A} a.
Arguments Throw {num A} t.

(** Errors raised by the engine rather than by the service. *)
Inductive Fault :=
| ReadOfNullish (prop : jsstring)
| NotIterable
| NoPrimitive
| BadJSON (text : jsstring).

(** What the JavaScript engine provides. [number] stands for the IEEE
    doubles; [number_json n] is the number that the text
    [JSON.stringify] writes for [n] denotes ([n] itself, [0] for [-0]),
    and [None] where it writes [null] (for [NaN] and the infinities);
    [JSON_parse] gives [None] where [JSON.parse] throws a
    [SyntaxError]; [decode_byte] is one step of the [TextDecoder] whose
    state survives between [decode(value, {stream: true})] calls. *)
Class Runtime := {
  number : Type;
  number_zero : number;
  number_is_zero : number → bool;
  number_is_nan : number → bool;
  number_toString : number → jsstring;
  number_json : number → option number;
  JSON_parse : jsstring → option (JSValue number);
  fault_message : Fault → jsstring;
  decoder : Type;
  decoder_new : decoder;
  decode_byte : decoder → N → decoder * jsstring
}.

(** ** The language: truthiness, property reads, conversions *)

Abbreviation value := (JSValue number).
Abbreviation thrown := (Thrown number).
Abbreviation result := (@Result number).

Section Language.
Context `{RT : Runtime}.

#[export] Instance result_ret : MRet result := λ A a, Ok a.
#[export] Instance result_bind : MBind result := λ A B f r,
  match r with
  | Ok a => f a
  | Throw t => Throw t
  end.

(** [new Error(msg)] *)
Definition newError (msg : jsstring) : JSError := mkError (js "Error") msg.

(** A [TypeError] or [SyntaxError] of the engine. *)
Definition fault {A} (f : Fault) : result A :=
  Throw (ThrowError
    (mkError (match f with BadJSON _ => js "SyntaxError" | _ => js "TypeError" end)
             (fault_message f))).

(** [JSON.parse(text)] *)
Definition parseJSON (text : jsstring) : result value :=
  match JSON_parse text with
  | Some v => Ok v
  | None => fault (BadJSON text)
  end.

(** ToBoolean *)
Definition truthy (v : value) : bool :=
  match v with
  | JUndefined | JNull => false
  | JBool b => b
  | JNum n => negb (number_is_zero n) && negb (number_is_nan n)
  | JStr s => negb (bool_decide (s = []))
  | JArr _ | JObj _ => true
  end.

(** [v == null] *)
Definition nullish (v : value) : bool :=
  match v with
  | JUndefined | JNull => true
  | _ => false
  end.

(** [a || b] *)
Definition or_else (a b : value) : value := if truthy a then a else b.

Fixpoint assoc (k : jsstring) (props : list (jsstring * value)) : option value :=
  match props with
  | [] => None
  | (k', v) :: rest => if bool_decide (k = k') then Some v else assoc k rest
  end.

(** [v.k] for the property names the service reads ([type], [model],
    [delta], [response], [usage], [output], [content], [text], [error],
    [message] and the usage counters). None of them is a property of
    strings, numbers, booleans or arrays, nor inherited from
    [Object.prototype], so only a parsed object can hold one; reading
    from [null] or [undefined] throws. *)
Definition getp (v : value) (k : jsstring) : result value :=
  match v with
  | JUndefined | JNull => fault (ReadOfNullish k)
  | JObj props => Ok (default JUndefined (assoc k props))
  | _ => Ok JUndefined
  end.

(** [v?.k] *)
Definition getp_opt (v : value) (k : jsstring) : value :=
  match v with
  | JObj props => default JUndefined (assoc k props)
  | _ => JUndefined
  end.

(** [v === 'lit'] *)
Definition is_str (v : value) (lit : jsstring) : bool :=
  match v with
  | JStr s => str_eqb s lit
  | _ => false
  end.

(** ToString, as string concatenation, template literals and
    [new Error(v)] apply it. An object converts through the [toString]
    it has: one that came out of [JSON.parse] (or any object whose
    properties are plain data) inherits [Object.prototype.toString]
    unless it has a property [toString] of its own, which is no
    function, and then the conversion throws a [TypeError]
    ([valueOf] never gives a primitive). An array joins the conversions
    of its elements. *)
Fixpoint toString (v : value) : result jsstring :=
  match v with
  | JUndefined => Ok (js "undefined")
  | JNull => Ok (js "null")
  | JBool true => Ok (js "true")
  | JBool false => Ok (js "false")
  | JNum n => Ok (number_toString n)
  | JStr s => Ok s
  | JArr items =>
      (fix join (l : list value) : result jsstring :=
         match l with
         | [] => Ok []
         | x :: rest =>
             match (match x with
                    | JUndefined | JNull => Ok []
                    | _ => toString x
                    end) with
             | Throw t => Throw t
             | Ok piece =>
                 match rest with
                 | [] => Ok piece
                 | _ :: _ =>
                     match join rest with
                     | Ok tail => Ok (piece ++ js "," ++ tail)
                     | Throw t => Throw t
                     end
                 end
             end
         end) items
  | JObj props =>
      match assoc (js "toString") props with
      | Some _ => fault NoPrimitive
      | None => Ok (js "[object Object]")
      end
  end.

(** The strings a [for ... of] over a string yields: its code points,
    a surrogate pair as one string. *)
Fixpoint code_points (s : jsstring) : list jsstring :=
  match s with
  | [] => []
  | c :: rest =>
      match rest with
      | d :: rest' =>
          if (55296 <=? c) && (c <=? 56319) && (56320 <=? d) && (d <=? 57343)
          then [c; d] :: code_points rest'
          else [c] :: code_points rest
      | [] => [[c]]
      end
  end.

(** The values a [for (const x of v)] visits; a value that is not
    iterable throws. *)
Definition iterate (v : value) : result (list value) :=
  match v with
  | JArr items => Ok items
  | JStr s => Ok (JStr <$> code_points s)
  | JUndefined | JNull | JBool _ | JNum _ | JObj _ => fault NotIterable
  end.
End Language.

(** ** The environment: callbacks, the abort signal, effects *)

Section Effects.
Context `{RT : Runtime}.

(** [ChatMessageTimings], as [convertUsageToTimings] fills it. *)
Record Timings := mkTimings {
  prompt_n : value;
  predicted_n : value;
  cache_n : value
}.

(** One invocation of a callback of the caller, with its arguments
    (the trailing [undefined] arguments of [onTimings] and [onComplete]
    are left out). *)
Inductive Call :=
| OnChunk (chunk : value)
| OnReasoningChunk (chunk : value)
| OnToolCallChunk (chunk : value)
| OnModel (model : value)
| OnTimings (timings : Timings)
| OnComplete (response : jsstring) (reasoningContent : option jsstring)
             (timings : option Timings)
| OnError (error : JSError).

(** What running a callback does to the request: it returns or throws,
    and it may abort the request's [AbortController]. *)
Record Reaction := mkReaction {
  throws : option thrown;
  aborts : bool
}.

(** A function the caller passed: its reaction may depend on the calls
    made so far and on its argument. *)
Definition Callback (A : Type) : Type := list Call → A → Reaction.

(** The optional callbacks of [SettingsChatServiceOptions]. *)
Record Callbacks := mkCallbacks {
  onChunk : option (Callback value);
  onComplete : option (Callback (jsstring * option jsstring * option Timings));
  onError : option (Callback JSError);
  onReasoningChunk : option (Callback value);
  onToolCallChunk : option (Callback value);
  onModel : option (Callback value);
  onTimings : option (Callback Timings)
}.

(** The observable state of a request: the callback invocations so far,
    oldest first, and whether its abort signal has been set. *)
Record World := mkWorld {
  calls : list Call;
  aborted : bool
}.

(** Computations over the world and the local variables [L] of the
    running function; a [throw] keeps the assignments made before it. *)
Definition M (L A : Type) : Type := World * L → World * L * result A.

#[export] Instance M_ret {L} : MRet (M L) := λ A a s, (s, Ok a).
#[export] Instance M_bind {L} : MBind (M L) := λ A B f m s,
  match m s with
  | (s', Ok a) => f a s'
  | (s', Throw t) => (s', Throw t)
  end.

Definition throw {L A} (t : thrown) : M L A := λ s, (s, Throw t).

Definition liftR {L A} (r : result A) : M L A := λ s, (s, r).

(** [try { m } catch (e) { h e }] *)
Definition try_catch {L A} (m : M L A) (h : thrown → M L A) : M L A := λ s,
  match m s with
  | (s', Ok a) => (s', Ok a)
  | (s', Throw t) => h t s'
  end.

Definition get_local {L} : M L L := λ s, (s, Ok (snd s)).

Definition modify_local {L} (f : L → L) : M L unit := λ s,
  ((fst s, f (snd s)), Ok tt).

(** Runs a callee with its own local variables. *)
Definition with_locals {L L' A} (init : L') (m : M L' A) : M L A := λ s,
  match m (fst s, init) with
  | (s', r) => ((fst s', snd s), r)
  end.

(** [cb?.(arg)] *)
Definition call {L A} (cb : option (Callback A)) (record : A → Call) (arg : A)
  : M L unit := λ s,
  match cb with
  | None => (s, Ok tt)
  | Some f =>
      let r := f (calls (fst s)) arg in
      ((mkWorld (calls (fst s) ++ [record arg]) (aborted (fst s) || aborts r), snd s),
       match throws r with
       | None => Ok tt
       | Some t => Throw t
       end)
  end.

(** [abortSignal?.aborted], where [signal] tells whether an
    [AbortSignal] was passed. *)
Definition signal_aborted {L} (signal : bool) : M L bool := λ s,
  (s, Ok (signal && aborted (fst s))).

(** The signal is set while the function is suspended in an [await]. *)
Definition suspend {L} (abort : bool) : M L unit := λ s,
  ((mkWorld (calls (fst s)) (aborted (fst s) || abort), snd s), Ok tt).

(** [m] moves every state to one related by [R]. *)
Definition steps {L A} (R : relation (World * L)) (m : M L A) : Prop :=
  ∀ s, R s (m s).1.

(** [error instanceof Error ? error : new Error(msg)] *)
Definition as_error (t : thrown) (msg : jsstring) : JSError :=
  match t with
  | ThrowError e => e
  | ThrowOther _ => newError msg
  end.
End Effects.

(** ** The HTTP response *)

Section Network.
Context `{RT : Runtime}.

(** How the body stream ends: [reader.read()] reports [done], or rejects. *)
Inductive Ending :=
| Done
| Failed (t : thrown).

(** The body stream as [reader.read()] delivers it: the byte chunks in
    order, then the ending; the flag of a read tells whether the abort
    signal was set while the read was awaited. *)
Record Stream := mkStream {
  reads : list (bool * list N);
  finish : bool * Ending
}.

(** A [Response]: [text] is what [response.text()] settles to, [body]
    is [None] for a response without a body. *)
Record Response := mkResponse {
  ok : bool;
  status : N;
  statusText : jsstring;
  text : result jsstring;
  body : option Stream
}.
End Network.

(** ** The service *)

Section Service.
Context `{RT : Runtime}.

(** *** convertUsageToTimings *)

Definition convertUsageToTimings (usage : value) : result Timings :=
  input_tokens ← getp usage (js "input_tokens");
  output_tokens ← getp usage (js "output_tokens");
  input_tokens_details ← getp usage (js "input_tokens_details");
  mret {| prompt_n := or_else input_tokens (JNum number_zero);
          predicted_n := or_else output_tokens (JNum number_zero);
          cache_n := or_else (getp_opt input_tokens_details (js "cached_tokens"))
                             (JNum number_zero) |}.

(** *** handleStreamResponse *)

(** The variables the stream handler assigns inside its [try] blocks. *)
Record StreamLocals := mkStreamLocals {
  aggregatedContent : jsstring;
  fullReasoningContent : jsstring;
  lastTimings : option Timings;
  modelEmitted : bool
}.

Definition add_content (delta : jsstring) (l : StreamLocals) : StreamLocals :=
  mkStreamLocals (aggregatedContent l ++ delta) (fullReasoningContent l)
                 (lastTimings l) (modelEmitted l).

Definition add_reasoning (delta : jsstring) (l : StreamLocals) : StreamLocals :=
  mkStreamLocals (aggregatedContent l) (fullReasoningContent l ++ delta)
                 (lastTimings l) (modelEmitted l).

Definition set_lastTimings (t : Timings) (l : StreamLocals) : StreamLocals :=
  mkStreamLocals (aggregatedContent l) (fullReasoningContent l)
                 (Some t) (modelEmitted l).

Definition set_modelEmitted (l : StreamLocals) : StreamLocals :=
  mkStreamLocals (aggregatedContent l) (fullReasoningContent l)
                 (lastTimings l) true.

Definition when {L} (b : bool) (m : M L unit) : M L unit :=
  if b then m else mret tt.

(** [if (m && !modelEmitted) { modelEmitted = true; onModel?.(m); }] *)
Definition emit_model (cbs : Callbacks) (m : value) : M StreamLocals unit :=
  l ← get_local;
  when (truthy m && negb (modelEmitted l))
    (modify_local set_modelEmitted;; call (onModel cbs) OnModel m).

(** The body of the inner [try]: one decoded [data:] payload. *)
Definition handle_event (cbs : Callbacks) (signal : bool) (data : jsstring)
  : M StreamLocals unit :=
  parsed ← liftR (parseJSON data);
  eventType ← liftR (getp parsed (js "type"));
  model ← liftR (getp parsed (js "model"));
  emit_model cbs model;;
  when (is_str eventType (js "response.output_text.delta"))
    (d ← liftR (getp parsed (js "delta"));
     let delta := or_else d (JStr []) in
     when (truthy delta)
       (text ← liftR (toString delta);
        modify_local (add_content text);;
        ab ← signal_aborted signal;
        when (negb ab) (call (onChunk cbs) OnChunk delta)));;
  when (is_str eventType (js "response.reasoning_summary_text.delta"))
    (d ← liftR (getp parsed (js "delta"));
     let delta := or_else d (JStr []) in
     when (truthy delta)
       (text ← liftR (toString delta);
        modify_local (add_reasoning text);;
        ab ← signal_aborted signal;
        when (negb ab) (call (onReasoningChunk cbs) OnReasoningChunk delta)));;
  when (is_str eventType (js "response.function_call_arguments.delta"))
    (d ← liftR (getp parsed (js "delta"));
     let delta := or_else d (JStr []) in
     ab ← signal_aborted signal;
     when (truthy delta && negb ab)
       (call (onToolCallChunk cbs) OnToolCallChunk delta));;
  when (is_str eventType (js "response.completed")
        || is_str eventType (js "response.done"))
    (r ← liftR (getp parsed (js "response"));
     let responseData := or_else r parsed in
     usage ← liftR (getp responseData (js "usage"));
     when (truthy usage)
       (t ← liftR (convertUsageToTimings usage);
        modify_local (set_lastTimings t);;
        call (onTimings cbs) OnTimings t);;
     m ← liftR (getp responseData (js "model"));
     emit_model cbs m).

(** One line of the buffer. A failure while the payload is handled is
    logged and the line is given up. *)
Definition process_line (cbs : Callbacks) (signal : bool) (line : jsstring)
  : M StreamLocals unit :=
  if startsWith line (js "event: ") then mret tt
  else if startsWith line (js "data: ") then
    let data := slice 6 line in
    if str_eqb data (js "[DONE]") then mret tt
    else try_catch (handle_event cbs signal data) (λ _, mret tt)
  else mret tt.

(** [for (const line of lines)], left as soon as the signal is set. *)
Fixpoint for_lines (cbs : Callbacks) (signal : bool) (lines : list jsstring)
  : M StreamLocals unit :=
  match lines with
  | [] => mret tt
  | line :: rest =>
      ab ← signal_aborted signal;
      if (ab : bool) then mret tt
      else (process_line cbs signal line;; for_lines cbs signal rest)
  end.

(** [decoder.decode(value, { stream: true })] *)
Fixpoint decode (d : decoder) (bytes : list N) : decoder * jsstring :=
  match bytes with
  | [] => (d, [])
  | b :: rest =>
      let '(d1, out) := decode_byte d b in
      let '(d2, out') := decode d1 rest in
      (d2, out ++ out')
  end.

(** [while (true)] over the reads of the body; it returns when the loop
    is left, and throws when a read rejects. *)
Fixpoint read_loop (cbs : Callbacks) (signal : bool) (fin : bool * Ending)
    (rs : list (bool * list N)) (d : decoder) (buffer : jsstring)
  : M StreamLocals unit :=
  ab ← signal_aborted signal;
  if (ab : bool) then mret tt
  else match rs with
  | [] =>
      suspend (fst fin);;
      match snd fin with
      | Done => mret tt
      | Failed t => throw t
      end
  | (during, bytes) :: rest =>
      suspend during;;
      ab ← signal_aborted signal;
      if (ab : bool) then mret tt
      else
        let '(d', decoded) := decode d bytes in
        let buffer := buffer ++ decoded in
        let '(last_line, lines) := pop (split_newline buffer) in
        let buffer := default [] last_line in
        for_lines cbs signal lines;;
        ab ← signal_aborted signal;
        if (ab : bool) then mret tt
        else read_loop cbs signal fin rest d' buffer
  end.

(** [s || undefined] *)
Definition nonempty (s : jsstring) : option jsstring :=
  match s with
  | [] => None
  | _ :: _ => Some s
  end.

Definition handleStreamResponse (response : Response) (cbs : Callbacks)
    (signal : bool) : M StreamLocals unit :=
  match body response with
  | None => throw (ThrowError (newError (js "No response body")))
  | Some stream =>
      try_catch
        (read_loop cbs signal (finish stream) (reads stream) decoder_new [];;
         ab ← signal_aborted signal;
         if (ab : bool) then mret tt
         else
           l ← get_local;
           call (onComplete cbs)
                (λ a, OnComplete a.1.1 a.1.2 a.2)
                (aggregatedContent l, nonempty (fullReasoningContent l),
                 lastTimings l))
        (λ error,
           let err := as_error error (js "Stream error") in
           call (onError cbs) OnError err;;
           throw (ThrowError err))
  end.

(** The values of the handler's variables when it starts. The
    [finally { reader.releaseLock() }] of the source touches neither the
    callbacks nor the result and is left out. *)
Definition stream_start : StreamLocals := mkStreamLocals [] [] None false.

(** *** handleNonStreamResponse *)

Definition noResponseError : JSError :=
  newError (js "No response received from server. Please try again.").

(** [for (const contentItem of parts) if (contentItem.type === tag)
    acc += contentItem.text || ''] *)
Fixpoint collect_text (tag : jsstring) (parts : list value) (acc : jsstring)
  : result jsstring :=
  match parts with
  | [] => mret acc
  | contentItem :: rest =>
      ty ← getp contentItem (js "type");
      if is_str ty tag then
        t ← getp contentItem (js "text");
        text ← toString (or_else t (JStr []));
        collect_text tag rest (acc ++ text)
      else collect_text tag rest acc
  end.

(** [for (const item of data.output)]: the pair of [content] and
    [reasoningContent]. *)
Fixpoint collect_output (items : list value) (acc : jsstring * jsstring)
  : result (jsstring * jsstring) :=
  match items with
  | [] => mret acc
  | item :: rest =>
      ty ← getp item (js "type");
      content ←
        (if is_str ty (js "message") then
           c ← getp item (js "content");
           if truthy c then
             parts ← iterate c;
             collect_text (js "output_text") parts acc.1
           else mret acc.1
         else mret acc.1);
      reasoningContent ←
        (if is_str ty (js "reasoning") then
           c ← getp item (js "content");
           parts ← iterate (or_else c (JArr []));
           collect_text (js "reasoning_summary_text") parts acc.2
         else mret acc.2);
      collect_output rest (content, reasoningContent)
  end.

(** The texts of a parsed body: nothing unless [data.output] is an array. *)
Definition extract_texts (data : value) : result (jsstring * jsstring) :=
  output ← getp data (js "output");
  match output with
  | JArr items => collect_output items ([], [])
  | _ => mret ([], [])
  end.

Definition handleNonStreamResponse (response : Response) (cbs : Callbacks)
  : M unit jsstring :=
  try_catch
    (responseText ← liftR (text response);
     if blank responseText then throw (ThrowError noResponseError)
     else
       data ← liftR (parseJSON responseText);
       model ← liftR (getp data (js "model"));
       when (truthy model) (call (onModel cbs) OnModel model);;
       texts ← liftR (extract_texts data);
       let content : jsstring := texts.1 in
       let reasoningContent : jsstring := texts.2 in
       if blank content then throw (ThrowError noResponseError)
       else
         usage ← liftR (getp data (js "usage"));
         timings ← liftR (if truthy usage
                          then t ← convertUsageToTimings usage; mret (Some t)
                          else mret None);
         call (onComplete cbs)
              (λ a, OnComplete a.1.1 a.1.2 a.2)
              (content, nonempty reasoningContent, timings);;
         mret content)
    (λ error,
       let err := as_error error (js "Parse error") in
       call (onError cbs) OnError err;;
       throw (ThrowError err)).

(** *** parseErrorResponse *)

Definition parseErrorResponse (response : Response) : JSError :=
  let attempt : result JSError :=
    errorText ← text response;
    errorData ← parseJSON errorText;
    error ← getp errorData (js "error");
    let message := or_else (getp_opt error (js "message"))
                           (JStr (js "Unknown server error")) in
    message ← toString message;
    mret (mkError (if bool_decide (status response = 400)
                   then js "ServerError" else js "HttpError")
                  message) in
  match attempt with
  | Ok error => error
  | Throw _ =>
      mkError (js "HttpError")
              (js "Server error (" ++ decimal (status response) ++ js "): "
               ++ statusText response)
  end.

(** *** convertMessagesToInput *)

(** The attachment records of a stored message, by [AttachmentType];
    [OtherExtra] is any type the converter has no branch for. *)
Inductive DatabaseMessageExtra :=
| ImageFile (name base64Url : jsstring)
| TextFile (name content : jsstring)
| LegacyContext (name content : jsstring)
| AudioFile (name base64Data mimeType : jsstring)
| PdfFile (name content : jsstring) (processedAsImages : bool)
          (images : option (list jsstring))
| OtherExtra.

(** A stored message (it has [id], [convId] and [timestamp]). *)
Record DatabaseMessage := mkDatabaseMessage {
  db_role : jsstring;
  db_content : jsstring;
  db_extra : option (list DatabaseMessageExtra)
}.

(** A part of an API-shaped message; [part_image_url] is
    [part.image_url?.url], [part_input_audio] the [data] and [format] of
    [part.input_audio]. *)
Record ApiChatMessageContentPart := mkApiPart {
  part_type : jsstring;
  part_text : option jsstring;
  part_image_url : option jsstring;
  part_input_audio : option (jsstring * jsstring)
}.

Record ApiChatMessageData := mkApiMessage {
  api_role : jsstring;
  api_content : jsstring + list ApiChatMessageContentPart
}.

(** The two shapes [sendMessage] accepts, told apart by the presence of
    [id], [convId] and [timestamp]. *)
Inductive Message :=
| Stored (m : DatabaseMessage)
| Plain (m : ApiChatMessageData).

(** A content part on the wire; an optional field is [None] when the
    source assigns [undefined] to it. *)
Inductive WirePart :=
| input_text (text : option jsstring)
| input_image (image_url : option jsstring)
| input_audio (data format : jsstring).

Inductive WireContent :=
| Bare (s : jsstring)
| Parts (parts : list WirePart).

Record WireMessage := mkWireMessage {
  role : jsstring;
  content : WireContent
}.

Definition file_banner (kind name content : jsstring) : jsstring :=
  [10; 10] ++ js "--- " ++ kind ++ js ": " ++ name ++ js " ---" ++ [10] ++ content.

Definition convertExtra (extra : DatabaseMessageExtra) : list WirePart :=
  match extra with
  | ImageFile _ base64Url => [input_image (Some base64Url)]
  | TextFile name content => [input_text (Some (file_banner (js "File") name content))]
  | LegacyContext name content =>
      [input_text (Some (file_banner (js "File") name content))]
  | AudioFile _ base64Data mimeType =>
      [input_audio base64Data
         (if includes mimeType (js "wav") then js "wav" else js "mp3")]
  | PdfFile name content processedAsImages images =>
      match processedAsImages, images with
      | true, Some urls => (λ imageUrl, input_image (Some imageUrl)) <$> urls
      | _, _ => [input_text (Some (file_banner (js "PDF File") name content))]
      end
  | OtherExtra => []
  end.

Definition convertExtrasToContent (message : DatabaseMessage) : list WirePart :=
  (match db_content message with
   | [] => []
   | _ :: _ => [input_text (Some (db_content message))]
   end)
  ++ match db_extra message with
     | None => []
     | Some extras => extras ≫= convertExtra
     end.

Definition convertApiContentParts (parts : list ApiChatMessageContentPart)
  : list WirePart :=
  (λ part,
     if str_eqb (part_type part) (js "text") then input_text (part_text part)
     else if str_eqb (part_type part) (js "image_url")
     then input_image (part_image_url part)
     else if str_eqb (part_type part) (js "input_audio")
     then input_audio
            (match part_input_audio part with
             | Some (((_ :: _) as data), _) => data
             | _ => []
             end)
            (match part_input_audio part with
             | Some (_, ((_ :: _) as format)) => format
             | _ => js "wav"
             end)
     else input_text (Some [])) <$> parts.

(** [role === 'system' ? 'developer' : role] *)
Definition map_role (r : jsstring) : jsstring :=
  if str_eqb r (js "system") then js "developer" else r.

(** The [{ role, content }] one message is turned into. *)
Definition convertMessage (msg : Message) : WireMessage :=
  match msg with
  | Stored dbMsg =>
      mkWireMessage (map_role (db_role dbMsg))
        (match db_extra dbMsg with
         | None | Some [] => Bare (db_content dbMsg)
         | Some (_ :: _) => Parts (convertExtrasToContent dbMsg)
         end)
  | Plain apiMsg =>
      mkWireMessage (map_role (api_role apiMsg))
        (match api_content apiMsg with
         | inl s => Bare s
         | inr parts => Parts (convertApiContentParts parts)
         end)
  end.

(** [role === 'developer' && typeof content === 'string' && !content.trim()] *)
Definition skipped (w : WireMessage) : bool :=
  str_eqb (role w) (js "developer") &&
  match content w with
  | Bare s => blank s
  | Parts _ => false
  end.

Fixpoint convertMessagesToInput (messages : list Message) : list WireMessage :=
  match messages with
  | [] => []
  | msg :: rest =>
      let w := convertMessage msg in
      if skipped w then convertMessagesToInput rest
      else w :: convertMessagesToInput rest
  end.

(** *** sendMessage *)

(** [custom]: a JSON text or an object. *)
Inductive Custom :=
| CustomText (s : jsstring)
| CustomObject (v : value).

(** [SettingsChatServiceOptions], as far as [sendMessage] reads it.
    [max_tokens] is [None] for [undefined] and [Some None] for [null]. *)
Record Options := mkOptions {
  stream : option bool;
  model : option jsstring;
  temperature : option number;
  max_tokens : option (option number);
  top_p : option number;
  custom : option Custom;
  disableReasoningFormat : bool;
  callbacks : Callbacks
}.

(** A value of the request body: the converted messages, or anything
    else. *)
Inductive BodyValue :=
| BInput (input : list WireMessage)
| BValue (v : value).

(** The own enumerable properties [Object.assign] copies from a source. *)
Definition own_properties (source : value) : list (jsstring * value) :=
  match source with
  | JObj props => props
  | JArr items => imap (λ i x, (decimal (N.of_nat i), x)) items
  | JStr s => imap (λ i c, (decimal (N.of_nat i), JStr [c])) s
  | JUndefined | JNull | JBool _ | JNum _ => []
  end.

(** [Object.assign(target, source)] for a target that is a plain object
    literal: every own property of the source is assigned to the
    target. Assigning to [__proto__] goes to the setter of
    [Object.prototype], which changes the prototype of the target (or
    nothing, for a primitive) and gives it no property; what the target
    inherits is not serialized. *)
Definition Object_assign (target : gmap jsstring BodyValue) (source : value)
  : gmap jsstring BodyValue :=
  foldl (λ m kv, if bool_decide (kv.1 = js "__proto__") then m
                 else <[kv.1 := BValue kv.2]> m)
        target (own_properties source).

(** The value that [if (custom) { try { ... } catch { } }] hands to
    [Object.assign]: none when [custom] is falsy or its text does not
    parse. *)
Definition customParams (c : option Custom) : option value :=
  match c with
  | None | Some (CustomText []) => None
  | Some (CustomText ((_ :: _) as s)) =>
      match parseJSON s with
      | Ok v => Some v
      | Throw _ => None
      end
  | Some (CustomObject v) => if truthy v then Some v else None
  end.

Definition merge_custom (requestBody : gmap jsstring BodyValue)
    (c : option Custom) : gmap jsstring BodyValue :=
  match customParams c with
  | Some v => Object_assign requestBody v
  | None => requestBody
  end.

(** The [requestBody] object when it is handed to [JSON.stringify]. *)
Definition requestBody (options : Options) (input : list WireMessage)
  : gmap jsstring BodyValue :=
  let b : gmap jsstring BodyValue :=
    <[js "store" := BValue (JBool false)]>
      (<[js "stream" := BValue (JBool (default true (stream options)))]>
         {[ js "input" := BInput input ]}) in
  let b := match model options with
           | Some ((_ :: _) as m) => <[js "model" := BValue (JStr m)]> b
           | _ => b
           end in
  let b := match temperature options with
           | Some t => <[js "temperature" := BValue (JNum t)]> b
           | None => b
           end in
  let b := match max_tokens options with
           | Some limit =>
               <[js "max_output_tokens" :=
                   BValue (match limit with
                           | Some n => if number_is_zero n then JUndefined else JNum n
                           | None => JUndefined
                           end)]> b
           | None => b
           end in
  let b := match top_p options with
           | Some p => <[js "top_p" := BValue (JNum p)]> b
           | None => b
           end in
  let b := if disableReasoningFormat options then b
           else <[js "reasoning" :=
                    BValue (JObj [(js "effort", JStr (js "medium"))])]> b in
  merge_custom b (custom options).

(** What [JSON.stringify] writes for a number. *)
Definition on_the_wire (n : number) : value :=
  match number_json n with
  | Some m => JNum m
  | None => JNull
  end.

(** What [JSON.stringify] writes for a value, as the value its text
    denotes; [None] for [undefined], which is left out as a property and
    written as [null] in an array. *)
Fixpoint stringify_value (v : value) : option value :=
  match v with
  | JUndefined => None
  | JNull => Some JNull
  | JBool b => Some (JBool b)
  | JNum n => Some (on_the_wire n)
  | JStr s => Some (JStr s)
  | JArr items =>
      Some (JArr ((fix elements (l : list value) : list value :=
                     match l with
                     | [] => []
                     | x :: rest => default JNull (stringify_value x) :: elements rest
                     end) items))
  | JObj props =>
      Some (JObj ((fix members (l : list (jsstring * value))
                     : list (jsstring * value) :=
                     match l with
                     | [] => []
                     | (k, x) :: rest =>
                         match stringify_value x with
                         | Some y => (k, y) :: members rest
                         | None => members rest
                         end
                     end) props))
  end.

(** The fields [JSON.stringify] writes for the body: a property whose
    value is [undefined] is left out. *)
Definition JSON_stringify (b : gmap jsstring BodyValue)
  : gmap jsstring BodyValue :=
  omap (λ v, match v with
             | BInput input => Some (BInput input)
             | BValue v => BValue <$> stringify_value v
             end) b.

(** The classification in the [catch] of [sendMessage]. *)
Definition userFriendlyError (error : thrown) : JSError :=
  match error with
  | ThrowError e =>
      if str_eqb (name e) (js "TypeError") && includes (message e) (js "fetch")
      then mkError (js "NetworkError")
             (js "Unable to connect to server - please check if the server is running")
      else if includes (message e) (js "ECONNREFUSED")
      then mkError (js "NetworkError")
             (js "Connection refused - server may be offline")
      else if includes (message e) (js "ETIMEDOUT")
      then mkError (js "TimeoutError")
             (js "Request timed out - the server took too long to respond")
      else e
  | ThrowOther _ => newError (js "Unknown error occurred while sending message")
  end.

Definition isAbortError (error : thrown) : bool :=
  match error with
  | ThrowError e => str_eqb (name e) (js "AbortError")
  | ThrowOther _ => false
  end.

(** How the [try] block of [sendMessage] is left without an exception:
    with a value, or with the promise of [handleNonStreamResponse],
    which is returned without [await] and so settles outside the
    [try]. *)
Inductive Returned :=
| Value (v : option jsstring)
| Promise (response : Response).

(** [sendMessage(messages, options, conversationId, signal)]; [signal]
    tells whether an [AbortSignal] was passed, [fetch] is what
    [await fetch(...)] comes to for the serialized body: the response,
    or what is thrown, by the network or while the headers are built
    (see [requestHeaders] below). The headers and the API key take no
    other part in what follows and are left out. *)
Definition sendMessage (messages : list Message) (options : Options)
    (signal : bool) (fetch : gmap jsstring BodyValue → result Response)
  : M unit (option jsstring) :=
  let cbs := callbacks options in
  let input := convertMessagesToInput messages in
  let requestBody := requestBody options input in
  r ← try_catch
        (response ← liftR (fetch (JSON_stringify requestBody));
         if negb (ok response) then
           let error := parseErrorResponse response in
           call (onError cbs) OnError error;;
           throw (ThrowError error)
         else if default false (stream options) then
           with_locals stream_start (handleStreamResponse response cbs signal);;
           mret (Value None)
         else mret (Promise response))
        (λ error,
           if isAbortError error then mret (Value None)
           else
             let userFriendlyError := userFriendlyError error in
             call (onError cbs) OnError userFriendlyError;;
             throw (ThrowError userFriendlyError));
  match r with
  | Value v => mret v
  | Promise response =>
      content ← handleNonStreamResponse response cbs;
      mret (Some content)
  end.

(** *** getApiKey *)

(** [localStorage] is [None] when there is no [window] or no
    [window.localStorage]; otherwise it is what
    [localStorage.getItem('llama-config')] does: it returns the stored
    text or [null], or it throws. *)
Definition getApiKey (localStorage : option (result (option jsstring))) : value :=
  match localStorage with
  | Some getItem =>
      let attempt : result (option value) :=
        configStr ← getItem;
        match configStr with
        | Some ((_ :: _) as s) =>
            config ← parseJSON s;
            apiKey ← getp config (js "apiKey");
            mret (Some (or_else apiKey JNull))
        | _ => mret None
        end in
      match attempt with
      | Ok (Some apiKey) => apiKey
      | Ok None | Throw _ => JNull
      end
  | None => JNull
  end.

(** The headers [sendMessage] hands to [fetch]: those of
    [getJsonHeaders], and [Authorization] when there is a key. The
    template literal converts the key to a string, which throws for a
    key that has no string conversion. *)
Definition requestHeaders (headers : gmap jsstring jsstring) (apiKey : value)
  : result (gmap jsstring jsstring) :=
  if truthy apiKey
  then key ← toString apiKey;
       mret (<[js "Authorization" := js "Bearer " ++ key]> headers)
  else mret headers.

End Service.

(** ** Observing a run *)

Section Observations.
Context `{RT : Runtime}.

Definition is_model (c : Call) : bool :=
  match c with OnModel _ => true | _ => false end.

Definition is_chunk (c : Call) : bool :=
  match c with OnChunk _ => true | _ => false end.

Definition is_complete (c : Call) : bool :=
  match c with OnComplete _ _ _ => true | _ => false end.

Definition is_error (c : Call) : bool :=
  match c with OnError _ => true | _ => false end.

(** The [onModel] calls made so far, plus the one the stream handler
    may still make. *)
Definition model_budget (s : World * StreamLocals) : nat :=
  length (filter is_model (calls s.1)) + (if modelEmitted s.2 then 0 else 1).

(** The budget does not grow, and the flag is not cleared. *)
Definition budget_le : relation (World * StreamLocals) :=
  λ s s', (model_budget s' ≤ model_budget s)%nat
          ∧ (modelEmitted s.2 = true → modelEmitted s'.2 = true).

(** A read during which the signal is not touched. *)
Definition undisturbed (bytes : list N) : bool * list N := (false, bytes).

(** The lines the read loop hands to [for_lines] while it takes the
    chunks one by one, starting with decoder [d] and buffer [buffer]. *)
Fixpoint fed_lines (chunks : list (list N)) (d : decoder) (buffer : jsstring)
  : list jsstring :=
  match chunks with
  | [] => []
  | bytes :: rest =>
      let '(d', decoded) := decode d bytes in
      let '(last_line, lines) := pop (split_newline (buffer ++ decoded)) in
      lines ++ fed_lines rest d' (default [] last_line)
  end.

(** A callback that returns normally and leaves the abort controller
    alone, whatever it is called with; so does one that was not passed. *)
Definition quiet {A} (cb : option (Callback A)) : Prop :=
  ∀ f history arg, cb = Some f → f history arg = mkReaction None false.

Definition well_behaved (cbs : Callbacks) : Prop :=
  quiet (onChunk cbs) ∧ quiet (onComplete cbs) ∧ quiet (onError cbs)
  ∧ quiet (onReasoningChunk cbs) ∧ quiet (onToolCallChunk cbs)
  ∧ quiet (onModel cbs) ∧ quiet (onTimings cbs).

(** The record a [cb?.(arg)] leaves: none when [cb] was not passed. *)
Definition invocation {A} (cb : option (Callback A)) (c : Call) : list Call :=
  match cb with
  | Some _ => [c]
  | None => []
  end.

(** The response [r] with a body that delivers [rs] and ends with [fin]. *)
Definition with_body (r : Response) (rs : list (bool * list N))
    (fin : bool * Ending) : Response :=
  mkResponse (ok r) (status r) (statusText r) (text r) (Some (mkStream rs fin)).
(** The text of a stream whose lines are [lines], each with its newline. *)
Definition framed (lines : list jsstring) : jsstring :=
  lines ≫= λ l, l ++ [10].

(** A line the stream handler passes over without parsing: an [event:]
    line, a line that is no [data:] line (a blank one, a comment), or
    the [data: [DONE]] line. *)
Definition ignored (line : jsstring) : bool :=
  startsWith line (js "event: ")
  || negb (startsWith line (js "data: "))
  || str_eqb (slice 6 line) (js "[DONE]").

(** *** Reading a trace *)

(** The callbacks the stream handler makes while it reads the body: all
    but [onComplete] and [onError]. *)
Definition is_progress (c : Call) : bool :=
  match c with
  | OnComplete _ _ _ | OnError _ => false
  | _ => true
  end.

(** The string a value converts to, empty when the conversion throws. *)
Definition string_of (v : value) : jsstring :=
  match toString v with
  | Ok s => s
  | Throw _ => []
  end.

(** A value that converts to a string: no object in it (itself, or an
    element of an array it is) has a [toString] property of its own. *)
Fixpoint convertible (v : value) : bool :=
  match v with
  | JObj props => bool_decide (assoc (js "toString") props = None)
  | JArr items =>
      (fix all (l : list value) : bool :=
         match l with
         | [] => true
         | x :: rest => convertible x && all rest
         end) items
  | _ => true
  end.

(** The text the [onChunk] calls of a trace were given, in order. *)
Definition delivered (cs : list Call) : jsstring :=
  cs ≫= λ c, match c with OnChunk chunk => string_of chunk | _ => [] end.

(** The text the [onReasoningChunk] calls of a trace were given. *)
Definition reasoned (cs : list Call) : jsstring :=
  cs ≫= λ c, match c with OnReasoningChunk chunk => string_of chunk | _ => [] end.

(** The argument of the last [onTimings] call of a trace, [init] when
    there is none. *)
Definition reported (init : option Timings) (cs : list Call) : option Timings :=
  foldl (λ acc c, match c with OnTimings t => Some t | _ => acc end) init cs.

(** What the loops of the stream handler do to the state: the signal is
    not cleared, the trace grows by progress callbacks, [lastTimings]
    follows [onTimings], and unless the request is aborted the two
    accumulators grow by what [onChunk] and [onReasoningChunk] were
    given. *)
Definition advances (cbs : Callbacks) (signal : bool)
  : relation (World * StreamLocals) :=
  λ s s',
    (aborted s.1 = true → aborted s'.1 = true)
    ∧ ∃ new,
        calls s'.1 = calls s.1 ++ new
        ∧ Forall (λ c, is_progress c = true) new
        ∧ (is_Some (onTimings cbs) →
           lastTimings s'.2 = reported (lastTimings s.2) new)
        ∧ (signal && aborted s'.1 = false →
           (is_Some (onChunk cbs) →
            aggregatedContent s'.2 = aggregatedContent s.2 ++ delivered new)
           ∧ (is_Some (onReasoningChunk cbs) →
              fullReasoningContent s'.2 = fullReasoningContent s.2 ++ reasoned new)).

(** The signal is left as it was. *)
Definition calm : relation (World * StreamLocals) :=
  λ s s', aborted s'.1 = aborted s.1.

(** What the callback behind a call did, given the calls before it. *)
Definition react {A} (cb : option (Callback A)) (history : list Call) (arg : A)
  : Reaction :=
  match cb with
  | Some f => f history arg
  | None => mkReaction None false
  end.

Definition reaction (cbs : Callbacks) (history : list Call) (c : Call) : Reaction :=
  match c with
  | OnChunk chunk => react (onChunk cbs) history chunk
  | OnReasoningChunk chunk => react (onReasoningChunk cbs) history chunk
  | OnToolCallChunk chunk => react (onToolCallChunk cbs) history chunk
  | OnModel m => react (onModel cbs) history m
  | OnTimings t => react (onTimings cbs) history t
  | OnComplete response reasoningContent timings =>
      react (onComplete cbs) history (response, reasoningContent, timings)
  | OnError e => react (onError cbs) history e
  end.

(** The callbacks the stream handler makes only after it has looked at
    the signal. *)
Definition is_guarded (c : Call) : bool :=
  match c with
  | OnChunk _ | OnReasoningChunk _ | OnToolCallChunk _ | OnComplete _ _ _ => true
  | OnModel _ | OnTimings _ | OnError _ => false
  end.

(** Whether a callback has aborted the request by the end of the calls
    [new], made after [history]; [ab] tells whether it was aborted
    before them. *)
Fixpoint aborted_after (cbs : Callbacks) (history new : list Call) (ab : bool) : bool :=
  match new with
  | [] => ab
  | c :: rest =>
      aborted_after cbs (history ++ [c]) rest (ab || aborts (reaction cbs history c))
  end.

(** None of the calls [new] is a guarded one made after the request was
    aborted. *)
Fixpoint heeds_abort (cbs : Callbacks) (history new : list Call) (ab : bool) : bool :=
  match new with
  | [] => true
  | c :: rest =>
      (negb ab || negb (is_guarded c))
      && heeds_abort cbs (history ++ [c]) rest (ab || aborts (reaction cbs history c))
  end.

(** A step that heeds the signal: whatever is known of the signal
    before it, the calls it adds heed it, and what follows from them is
    true of the signal after it. *)
Definition heeds (cbs : Callbacks) : relation (World * StreamLocals) :=
  λ s s', ∀ ab : bool,
    (ab = true → aborted s.1 = true) →
    ∃ new,
      calls s'.1 = calls s.1 ++ new
      ∧ heeds_abort cbs (calls s.1) new ab = true
      ∧ (aborted_after cbs (calls s.1) new ab = true → aborted s'.1 = true).

(** The event types that carry a delta, and those that end a response. *)
Definition delta_events : list jsstring :=
  [js "response.output_text.delta"; js "response.reasoning_summary_text.delta";
   js "response.function_call_arguments.delta"].

Definition final_events : list jsstring :=
  [js "response.completed"; js "response.done"].

(** The chunk a line of the stream brings: the [delta] of a text delta
    event, when it is truthy and converts to a string. *)
Definition text_delta (line : jsstring) : option value :=
  if ignored line then None
  else match JSON_parse (slice 6 line) with
       | Some e =>
           if is_str (getp_opt e (js "type")) (js "response.output_text.delta")
           then let delta := or_else (getp_opt e (js "delta")) (JStr []) in
                if truthy delta && convertible delta then Some delta else None
           else None
       | None => None
       end.

(** A step beside the text: it adds progress callbacks other than
    [onChunk] and leaves [aggregatedContent] as it is. *)
Definition beside_text : relation (World * StreamLocals) :=
  λ s s', ∃ new,
    calls s'.1 = calls s.1 ++ new
    ∧ Forall (λ c, is_progress c = true ∧ is_chunk c = false) new
    ∧ aggregatedContent s'.2 = aggregatedContent s.2.

(** *** Reading a body *)

(** What a content part adds to the text when the parts tagged [tag]
    are collected: its [text] as a string, the empty string for a falsy
    one (and nothing where the conversion throws and the walk ends). *)
Definition text_of (tag : jsstring) (part : value) : jsstring :=
  if is_str (getp_opt part (js "type")) tag
  then string_of (or_else (getp_opt part (js "text")) (JStr []))
  else [].

(** What an output item of type [kind] adds when its parts tagged [tag]
    are collected. *)
Definition item_text (kind tag : jsstring) (item : value) : jsstring :=
  if is_str (getp_opt item (js "type")) kind
  then match getp_opt item (js "content") with
       | JArr parts => parts ≫= text_of tag
       | _ => []
       end
  else [].

(** An output item the walk gets through: it is not [null], and its
    [content], if it has one, is an array of parts none of which is
    [null] and whose [text] converts to a string. *)
Definition walkable (item : value) : Prop :=
  nullish item = false
  ∧ match getp_opt item (js "content") with
    | JArr parts =>
        Forall (λ part, nullish part = false
                        ∧ convertible (getp_opt part (js "text")) = true) parts
    | JUndefined => True
    | _ => False
    end.



(** The timings [convertUsageToTimings] makes of a usage object. *)
Definition timings_of (usage : value) : Timings :=
  {| prompt_n := or_else (getp_opt usage (js "input_tokens")) (JNum number_zero);
     predicted_n := or_else (getp_opt usage (js "output_tokens")) (JNum number_zero);
     cache_n := or_else (getp_opt (getp_opt usage (js "input_tokens_details"))
                           (js "cached_tokens"))
                        (JNum number_zero) |}.

(** *** Reading a request *)

(** The options with [custom] left out. *)
Definition without_custom (options : Options) : Options :=
  mkOptions (stream options) (model options) (temperature options)
            (max_tokens options) (top_p options) None
            (disableReasoningFormat options) (callbacks options).

(** The custom parameters that are merged into the body, if any, do not
    carry the key [k]. *)
Definition untouched (options : Options) (k : jsstring) : Prop :=
  ∀ params, customParams (custom options) = Some params →
            k ∉ (own_properties params).*1.

(** The names [sendMessage] itself gives to fields of the body. *)
Definition body_fields : list jsstring :=
  [js "input"; js "stream"; js "store"; js "model"; js "temperature";
   js "max_output_tokens"; js "top_p"; js "reasoning"].

End Observations.

(** ** A reference runtime

    A runtime to run the service on closed inputs: numbers are integers,
    [JSON.parse] is a recursive-descent parser of the JSON grammar
    restricted to integer literals (a literal with a fraction or an
    exponent is outside this runtime and rejected), and the decoder is
    the UTF-8 decoder of the Encoding standard. *)

Module Reference.

Definition digit (c : N) : bool := (48 <=? c) && (c <=? 57).

Fixpoint skip_ws (s : jsstring) : jsstring :=
  match s with
  | c :: s' => if bool_decide (c ∈ [32; 9; 10; 13]) then skip_ws s' else s
  | [] => []
  end.

Definition hex_digit (c : N) : option N :=
  if (48 <=? c) && (c <=? 57) then Some (c - 48)
  else if (97 <=? c) && (c <=? 102) then Some (c - 87)
  else if (65 <=? c) && (c <=? 70) then Some (c - 55)
  else None.

(** The characters of a string literal after its opening quote. *)
Fixpoint parse_chars (s : jsstring) (acc : jsstring)
  : option (jsstring * jsstring) :=
  match s with
  | [] => None
  | 34 :: rest => Some (reverse acc, rest)
  | 92 :: e :: rest =>
      if bool_decide (e = 117) then
        match rest with
        | a :: b :: c :: d :: rest' =>
            match hex_digit a, hex_digit b, hex_digit c, hex_digit d with
            | Some a, Some b, Some c, Some d =>
                parse_chars rest' ((4096 * a + 256 * b + 16 * c + d) :: acc)
            | _, _, _, _ => None
            end
        | _ => None
        end
      else
        match (if bool_decide (e = 34) then Some 34
               else if bool_decide (e = 92) then Some 92
               else if bool_decide (e = 47) then Some 47
               else if bool_decide (e = 98) then Some 8
               else if bool_decide (e = 102) then Some 12
               else if bool_decide (e = 110) then Some 10
               else if bool_decide (e = 114) then Some 13
               else if bool_decide (e = 116) then Some 9
               else None) with
        | Some c => parse_chars rest (c :: acc)
        | None => None
        end
  | c :: rest => if c <? 32 then None else parse_chars rest (c :: acc)
  end.

Fixpoint parse_digits (s : jsstring) (acc : Z) : Z * jsstring :=
  match s with
  | c :: rest =>
      if digit c then parse_digits rest (10 * acc + Z.of_N (c - 48))%Z
      else (acc, s)
  | [] => (acc, [])
  end.

(** An integer literal; no leading zero, no fraction, no exponent. *)
Definition parse_int (s : jsstring) : option (Z * jsstring) :=
  let '(neg, s) := match s with
                   | 45 :: r => (true, r)
                   | _ => (false, s)
                   end in
  match s with
  | c :: r =>
      if digit c then
        let '(n, rest) := if bool_decide (c = 48) then (0%Z, r)
                          else parse_digits s 0%Z in
        match rest with
        | d :: _ =>
            if digit d || bool_decide (d ∈ [46; 101; 69]) then None
            else Some (if neg then (- n)%Z else n, rest)
        | [] => Some (if neg then (- n)%Z else n, rest)
        end
      else None
  | [] => None
  end.

(** [props[k] = v]: a key that is there keeps its place. *)
Fixpoint set_prop (k : jsstring) (v : JSValue Z) (props : list (jsstring * JSValue Z))
  : list (jsstring * JSValue Z) :=
  match props with
  | [] => [(k, v)]
  | (k', v') :: rest =>
      if bool_decide (k = k') then (k, v) :: rest
      else (k', v') :: set_prop k v rest
  end.

Fixpoint parse_value (fuel : nat) (s : jsstring) : option (JSValue Z * jsstring) :=
  match fuel with
  | O => None
  | S fuel =>
      match skip_ws s with
      | 123 :: rest =>
          match skip_ws rest with
          | 125 :: rest' => Some (JObj [], rest')
          | _ => parse_members fuel rest []
          end
      | 91 :: rest =>
          match skip_ws rest with
          | 93 :: rest' => Some (JArr [], rest')
          | _ => parse_elements fuel rest []
          end
      | 34 :: rest =>
          '(str, rest') ← parse_chars rest [];
          Some (JStr str, rest')
      | 116 :: 114 :: 117 :: 101 :: rest => Some (JBool true, rest)
      | 102 :: 97 :: 108 :: 115 :: 101 :: rest => Some (JBool false, rest)
      | 110 :: 117 :: 108 :: 108 :: rest => Some (JNull, rest)
      | s' =>
          '(n, rest) ← parse_int s';
          Some (JNum n, rest)
      end
  end
with parse_elements (fuel : nat) (s : jsstring) (acc : list (JSValue Z))
  : option (JSValue Z * jsstring) :=
  match fuel with
  | O => None
  | S fuel =>
      '(v, rest) ← parse_value fuel s;
      match skip_ws rest with
      | 44 :: rest' => parse_elements fuel rest' (v :: acc)
      | 93 :: rest' => Some (JArr (reverse (v :: acc)), rest')
      | _ => None
      end
  end
with parse_members (fuel : nat) (s : jsstring) (acc : list (jsstring * JSValue Z))
  : option (JSValue Z * jsstring) :=
  match fuel with
  | O => None
  | S fuel =>
      match skip_ws s with
      | 34 :: rest =>
          '(key, rest) ← parse_chars rest [];
          match skip_ws rest with
          | 58 :: rest =>
              '(v, rest) ← parse_value fuel rest;
              match skip_ws rest with
              | 44 :: rest' => parse_members fuel rest' (set_prop key v acc)
              | 125 :: rest' => Some (JObj (set_prop key v acc), rest')
              | _ => None
              end
          | _ => None
          end
      | _ => None
      end
  end.

Definition parse (text : jsstring) : option (JSValue Z) :=
  '(v, rest) ← parse_value (2 * length text + 2) text;
  match skip_ws rest with
  | [] => Some v
  | _ :: _ => None
  end.

Definition int_toString (n : Z) : jsstring :=
  match n with
  | Zneg p => 45 :: decimal (Npos p)
  | _ => decimal (Z.to_N n)
  end.

(** The state of the UTF-8 decoder: the code point under construction,
    the bytes seen and needed, the bounds of the next byte, and whether
    the byte order mark can still come. *)
Record Utf8 := mkUtf8 {
  code_point : N;
  bytes_seen : N;
  bytes_needed : N;
  lower_boundary : N;
  upper_boundary : N;
  bom_seen : bool
}.

Definition utf8_new : Utf8 := mkUtf8 0 0 0 128 191 false.

(** The UTF-16 code units of a scalar value. *)
Definition utf16 (cp : N) : jsstring :=
  if cp <? 65536 then [cp]
  else [55296 + (cp - 65536) / 1024; 56320 + (cp - 65536) mod 1024].

(** Hands a code point to the output; a leading U+FEFF is dropped. *)
Definition emit (bom : bool) (cp : N) : Utf8 * jsstring :=
  (mkUtf8 0 0 0 128 191 true,
   if negb bom && bool_decide (cp = 65279) then [] else utf16 cp).

(** A byte where a lead byte is expected. *)
Definition utf8_lead (bom : bool) (b : N) : Utf8 * jsstring :=
  if b <=? 127 then emit bom b
  else if (194 <=? b) && (b <=? 223) then
    (mkUtf8 (N.land b 31) 0 1 128 191 bom, [])
  else if (224 <=? b) && (b <=? 239) then
    (mkUtf8 (N.land b 15) 0 2 (if bool_decide (b = 224) then 160 else 128)
            (if bool_decide (b = 237) then 159 else 191) bom, [])
  else if (240 <=? b) && (b <=? 244) then
    (mkUtf8 (N.land b 7) 0 3 (if bool_decide (b = 240) then 144 else 128)
            (if bool_decide (b = 244) then 143 else 191) bom, [])
  else emit bom 65533.

Definition utf8_byte (d : Utf8) (b : N) : Utf8 * jsstring :=
  if bool_decide (bytes_needed d = 0) then utf8_lead (bom_seen d) b
  else if (lower_boundary d <=? b) && (b <=? upper_boundary d) then
    let cp := N.lor (N.shiftl (code_point d) 6) (N.land b 63) in
    if bool_decide (bytes_seen d + 1 = bytes_needed d) then emit (bom_seen d) cp
    else (mkUtf8 cp (bytes_seen d + 1) (bytes_needed d) 128 191 (bom_seen d), [])
  else
    let '(d1, out1) := emit (bom_seen d) 65533 in
    let '(d2, out2) := utf8_lead (bom_seen d1) b in
    (d2, out1 ++ out2).

Definition fault_text (f : Fault) : jsstring :=
  match f with
  | ReadOfNullish prop =>
      js "Cannot read properties of null (reading '" ++ prop ++ js "')"
  | NotIterable => js "object is not iterable"
  | NoPrimitive => js "Cannot convert object to primitive value"
  | BadJSON _ => js "Unexpected token in JSON"
  end.

#[export] Instance runtime : Runtime := {|
  number := Z;
  number_zero := 0%Z;
  number_is_zero := λ n, bool_decide (n = 0%Z);
  number_is_nan := λ _, false;
  number_toString := int_toString;
  number_json := Some;
  JSON_parse := parse;
  fault_message := fault_text;
  decoder := Utf8;
  decoder_new := utf8_new;
  decode_byte := utf8_byte
|}.

End Reference.

(** ** Closed inputs *)

Module Examples.
Import Reference.

(** A JSON text written with apostrophes for its double quotes. *)
Definition json (s : string) : jsstring :=
  (λ c, if bool_decide (c = 39) then 34 else c) <$> js s.

Definition returns {A} : Callback A := λ _ _, mkReaction None false.

(** A caller that passes every callback; all of them just return. *)
Definition listener : Callbacks :=
  mkCallbacks (Some returns) (Some returns) (Some returns) (Some returns)
              (Some returns) (Some returns) (Some returns).


Definition fresh : World := mkWorld [] false.

Definition success : Response := mkResponse true 200 (js "OK") (Ok []) None.

(** Two text deltas around a payload that is not JSON. *)
Definition hello : jsstring :=
  json "{'type':'response.output_text.delta','delta':'Hel'}".
Definition oops : jsstring := js "{oops".
Definition world : jsstring :=
  json "{'type':'response.output_text.delta','delta':'lo','model':'m1'}".

(** The three events as the server frames them, in two reads that cut
    the malformed line. *)
Definition sandwich : list (list N) :=
  [js "event: response.output_text.delta" ++ [10] ++ js "data: " ++ hello ++ [10; 10]
   ++ js "data: {o";
   js "ops" ++ [10; 10] ++ js "event: response.output_text.delta" ++ [10]
   ++ js "data: " ++ world ++ [10; 10] ++ js "data: [DONE]" ++ [10; 10]].


(** A 404 and a 400 with the error body of the server. *)
Definition not_found : Response :=
  mkResponse false 404 (js "Not Found")
    (Ok (json "{'error':{'message':'model not found'}}")) None.
Definition bad_request : Response :=
  mkResponse false 400 (js "Bad Request")
    (Ok (json "{'error':{'message':'input is required'}}")) None.





Definition options (s : option bool) (limit : option (option Z))
    (c : option Custom) (cbs : Callbacks) : Options :=
  mkOptions s None None limit None c false cbs.

Definition conversation : list Message :=
  [Stored (mkDatabaseMessage (js "system") (js "  ") None);
   Stored (mkDatabaseMessage (js "system") (js "be brief")
             (Some [TextFile (js "notes.txt") (js "n")]));
   Plain (mkApiMessage (js "user") (inl (js "hi")))].

(** The usage payload of the specification's example and its timings. *)
Definition usage : value :=
  JObj [(js "input_tokens", JNum 10%Z); (js "output_tokens", JNum 5%Z);
        (js "input_tokens_details", JObj [(js "cached_tokens", JNum 2%Z)])].
Definition timings : Timings := mkTimings (JNum 10%Z) (JNum 5%Z) (JNum 2%Z).

(** A caller whose chunk callback throws. *)
Definition grumpy : Callbacks :=
  mkCallbacks (Some (λ _ _, mkReaction (Some (ThrowOther (JStr (js "no")))) false))
              (Some returns) (Some returns) (Some returns)
              (Some returns) (Some returns) (Some returns).

(** What a read rejects with when the connection drops, and when the
    request is aborted. *)
Definition dropped : JSError := mkError (js "TypeError") (js "network error").
Definition abort_error : JSError :=
  mkError (js "AbortError") (js "The user aborted a request.").

(** What [sendMessage] makes of a [fetch] that cannot reach the server. *)
Definition server_down : JSError :=
  mkError (js "NetworkError")
    (js "Unable to connect to server - please check if the server is running").

(** A complete answer with its model and usage, as text and parsed. *)
Definition answer_body : jsstring :=
  json "{'model':'m1','output':[{'type':'reasoning','content':[{'type':'reasoning_summary_text','text':'hm'}]},{'type':'message','content':[{'type':'output_text','text':'Hel'},{'type':'refusal','text':'no'},{'type':'output_text','text':'lo'}]}],'usage':{'input_tokens':10,'output_tokens':5}}".

Definition answer_output : list value :=
  [JObj [(js "type", JStr (js "reasoning"));
         (js "content",
          JArr [JObj [(js "type", JStr (js "reasoning_summary_text"));
                      (js "text", JStr (js "hm"))]])];
   JObj [(js "type", JStr (js "message"));
         (js "content",
          JArr [JObj [(js "type", JStr (js "output_text"));
                      (js "text", JStr (js "Hel"))];
                JObj [(js "type", JStr (js "refusal"));
                      (js "text", JStr (js "no"))];
                JObj [(js "type", JStr (js "output_text"));
                      (js "text", JStr (js "lo"))]])]].

Definition answer_data : value :=
  JObj [(js "model", JStr (js "m1"));
        (js "output", JArr answer_output);
        (js "usage", JObj [(js "input_tokens", JNum 10%Z);
                           (js "output_tokens", JNum 5%Z)])].

Definition answer : Response := mkResponse true 200 (js "OK") (Ok answer_body) None.

(** A stored message with two recordings and a scanned PDF. *)
Definition recordings : list DatabaseMessageExtra :=
  [AudioFile (js "a.wav") (js "UklGRg==") (js "audio/wav");
   AudioFile (js "b.ogg") (js "T2dnUw==") (js "audio/ogg");
   PdfFile (js "scan.pdf") (js "text of the scan") true
     (Some [js "data:image/png;base64,AAAA"; js "data:image/png;base64,BBBB"])].

Definition voice_note : DatabaseMessage :=
  mkDatabaseMessage (js "user") (js "listen") (Some recordings).

(** An API-shaped message with a recording that names no format. *)
Definition spoken : Message :=
  Plain (mkApiMessage (js "user")
           (inr [mkApiPart (js "input_audio") None None (Some (js "UklGRg==", []))])).

End Examples.

(** ** Properties *)

Section Strings.

Lemma trimStart_nil_iff (s : jsstring) :
  trimStart s = [] ↔ Forall (λ c, isWhiteSpace c = true) s.
Proof.
  induction s as [|c s IH]; simpl.
  - split; [constructor | done].
  - destruct (isWhiteSpace c) eqn:Hc.
    + rewrite IH. split; [by constructor | by inversion 1].
    + split; [done | inversion 1; congruence].
Qed.

Lemma trimStart_Forall (s : jsstring) :
  Forall (λ c, isWhiteSpace c = true) (trimStart s) → trimStart s = [].
Proof.
  induction s as [|c s IH]; simpl; [done |].
  destruct (isWhiteSpace c) eqn:Hc; [done |].
  inversion 1; congruence.
Qed.

(** [!s.trim()] holds exactly for the strings made of white space only,
    the empty one among them. *)
Lemma blank_spec (s : jsstring) :
  blank s = true ↔ Forall (λ c, isWhiteSpace c = true) s.
Proof.
  unfold blank, trim. rewrite bool_decide_eq_true.
  split.
  - intros H. apply trimStart_nil_iff.
    apply (f_equal reverse) in H. rewrite reverse_involutive in H.
    apply trimStart_nil_iff in H. rewrite Forall_reverse in H.
    by apply trimStart_Forall.
  - intros H. apply trimStart_nil_iff in H. by rewrite H.
Qed.

Lemma startsWith_app (p s : jsstring) : startsWith (p ++ s) p = true.
Proof.
  induction p as [|c p IH]; simpl; [done |].
  rewrite bool_decide_eq_true_2 by done. by rewrite IH.
Qed.

Lemma split_newline_nonempty (s : jsstring) : split_newline s ≠ [].
Proof.
  induction s as [|c s IH]; simpl; [done |].
  case_bool_decide; [done |]. by destruct (split_newline s).
Qed.

(** A line without a newline, then a newline: the line is split off. *)
Lemma split_newline_line (l rest : jsstring) :
  10 ∉ l → split_newline (l ++ 10 :: rest) = l :: split_newline rest.
Proof.
  induction l as [|c l IH]; intros Hl; [done |].
  rewrite <- app_comm_cons. cbn [split_newline].
  rewrite bool_decide_eq_false_2 by set_solver.
  rewrite IH by set_solver. done.
Qed.

(** Splitting a text that continues with [t]: the lines that were
    complete stay as they are, the unfinished segment is split again
    with [t] appended. *)
Lemma split_newline_app (s t : jsstring) :
  split_newline (s ++ t) =
  removelast (split_newline s)
  ++ split_newline (default [] (last (split_newline s)) ++ t).
Proof.
  induction s as [|c s IH]; [done |].
  rewrite <- app_comm_cons. cbn [split_newline].
  pose proof (split_newline_nonempty s) as Hne.
  case_bool_decide.
  - rewrite IH. by destruct (split_newline s) as [|l ls].
  - rewrite IH.
    destruct (split_newline s) as [|l ls] eqn:Hs; [done |].
    destruct ls as [|l' ls']; [| done].
    simpl. rewrite bool_decide_eq_false_2 by done.
    pose proof (split_newline_nonempty (l ++ t)) as Hne'.
    by destruct (split_newline (l ++ t)).
Qed.

(** What [split('\n')] followed by [pop()] yields: the lines that end in
    a newline, none of which holds one, and the segment after the last
    newline. *)
Lemma split_newline_spec (s : jsstring) :
  s = (removelast (split_newline s) ≫= λ l, l ++ [10])
      ++ default [] (last (split_newline s))
  ∧ Forall (λ l : jsstring, 10 ∉ l) (split_newline s).
Proof.
  induction s as [|c s [IH1 IH2]]; cbn [split_newline].
  - split; [done |]. repeat constructor. set_solver.
  - pose proof (split_newline_nonempty s) as Hne.
    case_bool_decide as Hc.
    + subst c. destruct (split_newline s) as [|l ls] eqn:Hs; [done |].
      split.
      * change (removelast ([] :: l :: ls)) with ([] :: removelast (l :: ls)).
        change (last ([] :: l :: ls)) with (last (l :: ls)).
        rewrite bind_cons. simpl app. by f_equal.
      * constructor; [set_solver | done].
    + destruct (split_newline s) as [|l ls] eqn:Hs; [done |].
      apply Forall_cons in IH2 as [Hl Hls].
      split.
      * destruct ls as [|l' ls']; simpl in *; [by f_equal |].
        by f_equal.
      * constructor; [| done].
        apply not_elem_of_cons. split; [by intros <- | done].
Qed.
End Strings.

Section Conversions.
Context `{RT : Runtime}.

(** [ToString] throws exactly on the values that hold an object with a
    [toString] property of its own. *)
Lemma toString_convertible (v : value) :
  toString v = if convertible v then Ok (string_of v) else fault NoPrimitive.
Proof.
  assert (H : (convertible v = true → ∃ s, toString v = Ok s)
              ∧ (convertible v = false → toString v = fault NoPrimitive)).
  { induction v as [| | b | n | s | items IH | props _] using value_ind.
    - split; [by eexists | discriminate].
    - split; [by eexists | discriminate].
    - split; [destruct b; by eexists | discriminate].
    - split; [by eexists | discriminate].
    - split; [by eexists | discriminate].
    - cbn [toString convertible].
      induction IH as [|x rest [Hx1 Hx2] _ [IH1 IH2]]; [split; [by eexists | done] |].
      destruct (convertible x) eqn:Hx; cbn [andb].
      + destruct (Hx1 eq_refl) as [piece Hpiece].
        assert (Hp : ∃ piece', match x with JUndefined | JNull => Ok [] | _ => toString x end
                               = Ok piece').
        { destruct x; eauto. }
        destruct Hp as [piece' ->].
        split.
        * intros Hrest. destruct (IH1 Hrest) as [tail ->]. destruct rest; by eexists.
        * intros Hrest. rewrite (IH2 Hrest). destruct rest; [discriminate Hrest | done].
      + split; [done |]. intros _. rewrite (Hx2 eq_refl).
        destruct x; try discriminate Hx; done.
    - cbn [toString convertible]. destruct (assoc _ props).
      + split; [| done]. intros H. by apply bool_decide_eq_true in H.
      + split; [by eexists | intros H; by apply bool_decide_eq_false in H]. }
  unfold string_of. destruct (convertible v).
  - by destruct (proj1 H eq_refl) as [s ->].
  - by apply H.
Qed.

Lemma getp_defined (v : value) (k : jsstring) :
  nullish v = false → getp v k = Ok (getp_opt v k).
Proof. by destruct v. Qed.

Lemma getp_opt_nullish (v : value) (k : jsstring) :
  nullish v = true → getp_opt v k = JUndefined.
Proof. by destruct v. Qed.

(** C8. [convertUsageToTimings] succeeds on every usage payload (any
    value but [null] and [undefined], which its callers rule out with
    their truthiness test and its parameter type excludes); each counter
    is the payload's field or, when that is missing or falsy, zero; and
    the usage [{input_tokens: 10, output_tokens: 5, input_tokens_details:
    {cached_tokens: 2}}] gives exactly [{prompt_n: 10, predicted_n: 5,
    cache_n: 2}]. *)
Theorem convertUsageToTimings_total (usage : value) :
  nullish usage = false →
  (∃ t, convertUsageToTimings usage = Ok t
        ∧ prompt_n t = or_else (getp_opt usage (js "input_tokens")) (JNum number_zero)
        ∧ predicted_n t = or_else (getp_opt usage (js "output_tokens")) (JNum number_zero)
        ∧ cache_n t = or_else (getp_opt (getp_opt usage (js "input_tokens_details"))
                                         (js "cached_tokens")) (JNum number_zero)
        ∧ (getp_opt usage (js "input_tokens") = JUndefined →
           prompt_n t = JNum number_zero)
        ∧ (getp_opt usage (js "output_tokens") = JUndefined →
           predicted_n t = JNum number_zero)
        ∧ (getp_opt (getp_opt usage (js "input_tokens_details")) (js "cached_tokens")
           = JUndefined → cache_n t = JNum number_zero))
  ∧ @convertUsageToTimings Reference.runtime Examples.usage = Ok Examples.timings.
Proof.
  intros Hu. split; [| done].
  unfold convertUsageToTimings. rewrite !getp_defined by done. simpl.
  eexists. split; [done |]. simpl.
  repeat split; try done; by intros ->.
Qed.

(** C7, as the code has it. [parseErrorResponse] always returns one
    error. When the body parses and [error.message] is a non-empty
    string, that string is the message, and the name is [ServerError] for
    status 400 and [HttpError] for every other status; when the body does
    not parse, the message is built from the status and the status text
    and the name is [HttpError]. [ServerError] is used for status 400
    only. *)
Theorem parseErrorResponse_classified (response : Response) (errorText : jsstring) :
  text response = Ok errorText →
  (∀ errorData m,
     JSON_parse errorText = Some errorData →
     getp_opt (getp_opt errorData (js "error")) (js "message") = JStr m →
     m ≠ [] →
     message (parseErrorResponse response) = m
     ∧ name (parseErrorResponse response) =
       if bool_decide (status response = 400) then js "ServerError" else js "HttpError")
  ∧ (JSON_parse errorText = None →
     parseErrorResponse response =
     mkError (js "HttpError")
             (js "Server error (" ++ decimal (status response) ++ js "): "
              ++ statusText response))
  ∧ (name (parseErrorResponse response) = js "ServerError" → status response = 400).
Proof.
  intros Htext. unfold parseErrorResponse, parseJSON. rewrite Htext. simpl.
  split; [| split].
  - intros errorData m Hparse Hm Hne. rewrite Hparse. simpl.
    destruct (nullish errorData) eqn:Hnull.
    { rewrite (getp_opt_nullish errorData) in Hm by done. done. }
    rewrite getp_defined by done. simpl. rewrite Hm.
    unfold or_else. simpl. rewrite (bool_decide_eq_false_2 (m = [])) by done. done.
  - intros Hparse. by rewrite Hparse.
  - destruct (JSON_parse errorText) as [errorData|]; simpl; [| done].
    destruct (getp errorData (js "error")); simpl; [| done].
    destruct (toString _); simpl; [| done].
    case_bool_decide; [done |]. simpl. done.
Qed.

Lemma convertMessagesToInput_filter (messages : list Message) :
  convertMessagesToInput messages =
  filter (λ w, skipped w = false) (convertMessage <$> messages).
Proof.
  induction messages as [|msg rest IH]; [done |].
  cbn [convertMessagesToInput fmap list_fmap]. rewrite filter_cons.
  destruct (skipped (convertMessage msg)) eqn:Hs.
  - rewrite decide_False by done. done.
  - rewrite decide_True by done. by f_equal.
Qed.

Lemma map_role_system : map_role (js "system") = js "developer".
Proof. done. Qed.

(** C6. [convertMessagesToInput] returns at most as many messages as
    it is given; no [developer] message whose content is a bare string
    of white space (the empty string included) is in its result, so
    every input message that converts to one is absent; and every
    message whose content converts to a sequence of parts is kept. *)
Theorem convertMessagesToInput_drops_blank_developer (messages : list Message) :
  (length (convertMessagesToInput messages) ≤ length messages)%nat
  ∧ (∀ w s, w ∈ convertMessagesToInput messages →
            role w = js "developer" → content w = Bare s →
            ¬ Forall (λ c, isWhiteSpace c = true) s)
  ∧ (∀ msg s, msg ∈ messages →
              role (convertMessage msg) = js "developer" →
              content (convertMessage msg) = Bare s →
              Forall (λ c, isWhiteSpace c = true) s →
              convertMessage msg ∉ convertMessagesToInput messages)
  ∧ (∀ msg parts, msg ∈ messages →
                  content (convertMessage msg) = Parts parts →
                  convertMessage msg ∈ convertMessagesToInput messages).
Proof.
  rewrite convertMessagesToInput_filter.
  assert (Hskip : ∀ w s, role w = js "developer" → content w = Bare s →
                         skipped w = true ↔ Forall (λ c, isWhiteSpace c = true) s).
  { intros w s Hr Hc. unfold skipped. rewrite Hr, Hc. simpl. apply blank_spec. }
  split; [| split; [| split]].
  - rewrite <- (length_fmap convertMessage messages). apply length_filter.
  - intros w s [Hw _]%list_elem_of_filter Hr Hc Hb.
    apply (Hskip w s Hr Hc) in Hb. congruence.
  - intros msg s _ Hr Hc Hb [Hw _]%list_elem_of_filter.
    apply (Hskip _ s Hr Hc) in Hb. congruence.
  - intros msg parts Hin Hc. apply list_elem_of_filter. split.
    + unfold skipped. rewrite Hc. apply andb_false_r.
    + by apply list_elem_of_fmap_2.
Qed.

Ltac key_ne :=
  let H := fresh in intros H; vm_compute in H; discriminate H.

Lemma Object_assign_lookup_other (b : gmap jsstring BodyValue) (source : value)
    (k : jsstring) :
  k ∉ (own_properties source).*1 → Object_assign b source !! k = b !! k.
Proof.
  unfold Object_assign. generalize (own_properties source). intros props.
  revert b. induction props as [|[k' v] props IH]; intros b Hk; [done |].
  simpl in *. apply not_elem_of_cons in Hk as [Hne Hk].
  rewrite IH by done. case_bool_decide; [done |]. by rewrite lookup_insert_ne.
Qed.

(** C9, as the code has it. When the custom parameters that are merged
    into the body do not themselves carry [max_output_tokens], the
    serialized body has that field exactly when [max_tokens] is a number
    other than zero, and its value is what [JSON.stringify] writes for
    that number: the number itself when it is finite, [null] for [NaN]
    and the infinities, which pass the test against zero; for
    [undefined], [null] and [0] the field is absent. *)
Theorem max_output_tokens_on_the_wire (options : Options) (input : list WireMessage) :
  (∀ params, customParams (custom options) = Some params →
             js "max_output_tokens" ∉ (own_properties params).*1) →
  JSON_stringify (requestBody options input) !! js "max_output_tokens" =
  match max_tokens options with
  | Some (Some n) => if number_is_zero n then None else Some (BValue (on_the_wire n))
  | Some None | None => None
  end.
Proof.
  intros Hcustom. unfold JSON_stringify. rewrite lookup_omap.
  unfold requestBody, merge_custom.
  match goal with
  | |- context [match customParams ?c with Some v => Object_assign ?b v | None => _ end] =>
      assert (Hmerge : match customParams c with
                       | Some v => Object_assign b v
                       | None => b
                       end !! js "max_output_tokens" = b !! js "max_output_tokens")
  end.
  { destruct (customParams (custom options)) as [v|] eqn:Hc; [| done].
    apply Object_assign_lookup_other. by apply Hcustom. }
  rewrite Hmerge. clear Hmerge Hcustom.
  destruct options as [st mo te mt tp cu dr cb]; simpl.
  destruct dr, tp as [p|], mt as [[n|]|], te as [t|], mo as [[|c m]|];
    repeat (rewrite lookup_insert_ne by key_ne);
    try rewrite lookup_insert_eq;
    try rewrite lookup_singleton_ne by key_ne;
    simpl; try done; by destruct (number_is_zero n).
Qed.
End Conversions.

(** ** The effects *)

Section Monad.
Context `{RT : Runtime}.
Context {L : Type}.

Lemma bind_run {A B} (m : M L A) (f : A → M L B) (s : World * L) :
  (m ≫= f) s = match m s with
               | (s', Ok a) => f a s'
               | (s', Throw t) => (s', Throw t)
               end.
Proof. done. Qed.

Lemma suspend_false (s : World * L) : suspend false s = (s, Ok tt).
Proof. destruct s as [[cs ab] l]. unfold suspend. simpl. by rewrite orb_false_r. Qed.

Context (R : relation (World * L)) `{!PreOrder R}.

Lemma steps_ret {A} (a : A) : steps R (mret a : M L A).
Proof. intros s. simpl. reflexivity. Qed.

Lemma steps_throw {A} (t : thrown) : steps R (throw t : M L A).
Proof. intros s. simpl. reflexivity. Qed.

Lemma steps_liftR {A} (r : result A) : steps R (liftR r : M L A).
Proof. intros s. simpl. reflexivity. Qed.

Lemma steps_get_local : steps R (get_local : M L L).
Proof. intros s. simpl. reflexivity. Qed.

Lemma steps_signal_aborted (signal : bool) : steps R (signal_aborted signal : M L bool).
Proof. intros s. simpl. reflexivity. Qed.

Lemma steps_bind {A B} (m : M L A) (f : A → M L B) :
  steps R m → (∀ a, steps R (f a)) → steps R (m ≫= f).
Proof.
  intros Hm Hf s. rewrite bind_run. specialize (Hm s).
  destruct (m s) as [s' [a|t]]; simpl in *; [| done].
  etrans; [exact Hm | apply Hf].
Qed.

Lemma steps_try_catch {A} (m : M L A) (h : thrown → M L A) :
  steps R m → (∀ t, steps R (h t)) → steps R (try_catch m h).
Proof.
  intros Hm Hh s. unfold try_catch. specialize (Hm s).
  destruct (m s) as [s' [a|t]]; simpl in *; [done |].
  etrans; [exact Hm | apply Hh].
Qed.

Lemma steps_when (b : bool) (m : M L unit) : steps R m → steps R (when b m).
Proof. destruct b; [done |]. intros _. apply steps_ret. Qed.

Lemma steps_if {A} (b : bool) (m1 m2 : M L A) :
  steps R m1 → steps R m2 → steps R (if b then m1 else m2).
Proof. by destruct b. Qed.
End Monad.

Arguments js : simpl never.

Ltac run :=
  repeat first
    [ rewrite bind_run
    | progress cbn [liftR when get_local modify_local signal_aborted suspend throw
                    fst snd getp mret M_ret calls aborted orb andb negb] ].

Ltac eval_is_str :=
  repeat match goal with
    | |- context [is_str (JStr (js ?a)) (js ?b)] =>
        let v := eval vm_compute in (is_str (JStr (js a)) (js b)) in
        change (is_str (JStr (js a)) (js b)) with v
    end.

(** ** The model callback *)

Section Model.
Context `{RT : Runtime}.

Lemma budget_le_preorder : PreOrder budget_le.
Proof.
  split; unfold budget_le; [intros ? | intros ? ? ? [? ?] [? ?]];
    (split; [lia | auto]).
Qed.

#[local] Existing Instance budget_le_preorder.

Lemma steps_call_other {A} (cb : option (Callback A)) (record : A → Call) (arg : A) :
  is_model (record arg) = false →
  steps budget_le (call cb record arg : M StreamLocals unit).
Proof.
  intros Hr [w l]. unfold call, budget_le, model_budget.
  destruct cb as [f|]; simpl; (split; [| done]); [| lia].
  rewrite filter_app, length_app, filter_cons_False; [simpl; lia |].
  simpl. rewrite Hr. auto.
Qed.

Lemma steps_modify_keep (f : StreamLocals → StreamLocals) :
  (∀ l, modelEmitted (f l) = modelEmitted l) →
  steps budget_le (modify_local f).
Proof.
  intros Hf [w l]. unfold budget_le, model_budget. simpl. by rewrite Hf.
Qed.

Lemma steps_suspend (b : bool) : steps budget_le (suspend b : M StreamLocals unit).
Proof. intros [w l]. unfold budget_le, model_budget. done. Qed.

Lemma steps_emit_model (cbs : Callbacks) (m : value) :
  steps budget_le (emit_model cbs m).
Proof.
  intros [w l]. unfold emit_model, budget_le, model_budget.
  rewrite bind_run. simpl.
  destruct (truthy m); simpl; [| done].
  destruct (modelEmitted l) eqn:He; simpl; [by rewrite He |].
  unfold call. destruct (onModel cbs) as [f|]; simpl; (split; [| done]); [| lia].
  rewrite filter_app, length_app. simpl. lia.
Qed.


Ltac steps :=
  repeat first
    [ apply budget_le_preorder
    | match goal with |- ∀ _, _ => intros ? end
    | apply steps_emit_model
    | apply steps_bind
    | apply steps_try_catch
    | apply steps_when
    | apply steps_if
    | apply steps_ret | apply steps_throw | apply steps_liftR
    | apply steps_get_local | apply steps_signal_aborted
    | apply steps_emit_model | apply steps_suspend
    | apply steps_call_other; done
    | apply steps_modify_keep; done ].

Lemma steps_handle_event (cbs : Callbacks) (signal : bool) (data : jsstring) :
  steps budget_le (handle_event cbs signal data).
Proof. unfold handle_event. steps. Qed.

Lemma steps_process_line (cbs : Callbacks) (signal : bool) (line : jsstring) :
  steps budget_le (process_line cbs signal line).
Proof.
  unfold process_line.
  repeat apply steps_if; try (apply steps_ret; apply _).
  apply steps_try_catch; [apply _ | apply steps_handle_event | steps].
Qed.

Lemma steps_for_lines (cbs : Callbacks) (signal : bool) (lines : list jsstring) :
  steps budget_le (for_lines cbs signal lines).
Proof.
  induction lines as [|line rest IH]; simpl; [steps |].
  apply steps_bind; [apply _ | steps | intros ab].
  apply steps_if; [steps |].
  apply steps_bind; [apply _ | apply steps_process_line | intros _; apply IH].
Qed.

Lemma steps_read_loop cbs signal fin rs d buffer :
  steps budget_le (read_loop cbs signal fin rs d buffer).
Proof.
  revert d buffer. induction rs as [|[during bytes] rest IH]; intros d buffer; simpl.
  - steps. destruct (snd fin); steps.
  - apply steps_bind; [apply _ | steps | intros ab].
    apply steps_if; [steps |].
    apply steps_bind; [apply _ | steps | intros _].
    apply steps_bind; [apply _ | steps | intros ab'].
    apply steps_if; [steps |].
    destruct (decode d bytes) as [d' decoded].
    unfold pop.
    apply steps_bind; [apply _ | apply steps_for_lines | intros _].
    apply steps_bind; [apply _ | steps | intros ab''].
    apply steps_if; [steps | apply IH].
Qed.

Lemma steps_handleStreamResponse response cbs signal :
  steps budget_le (handleStreamResponse response cbs signal).
Proof.
  unfold handleStreamResponse.
  destruct (body response) as [stream|]; [| steps].
  apply steps_try_catch; [apply _ | | intros error; steps].
  apply steps_bind; [apply _ | apply steps_read_loop | intros _; steps].
Qed.

(** C3. One run of [handleStreamResponse] adds at most one [onModel]
    call, whatever the events carry and whatever the callbacks do; and
    handling one event adds none once [modelEmitted] is set, adds at most
    one otherwise, and never clears the flag. *)
Theorem onModel_at_most_once (response : Response) (cbs : Callbacks)
    (signal : bool) (w : World) :
  (length (filter is_model
            (calls (handleStreamResponse response cbs signal (w, stream_start)).1.1))
   ≤ length (filter is_model (calls w)) + 1)%nat
  ∧ ∀ (data : jsstring) (l : StreamLocals),
      let s' := (handle_event cbs signal data (w, l)).1 in
      (length (filter is_model (calls s'.1))
       ≤ length (filter is_model (calls w)) + (if modelEmitted l then 0 else 1))%nat
      ∧ (modelEmitted l = true → modelEmitted s'.2 = true).
Proof.
  split.
  - destruct (steps_handleStreamResponse response cbs signal (w, stream_start)) as [H _].
    unfold model_budget in H. simpl in H. lia.
  - intros data l s'.
    destruct (steps_handle_event cbs signal data (w, l)) as [H1 H2].
    unfold model_budget in H1. simpl in H1, H2. fold s' in H1, H2.
    split; [lia | done].
Qed.
End Model.

(** ** Chunk boundaries *)

Section Chunks.
Context `{RT : Runtime}.
Context (cbs : Callbacks) (signal : bool).

Lemma decode_app (d : decoder) (a b : list N) :
  decode d (a ++ b) =
  let '(d1, out1) := decode d a in
  let '(d2, out2) := decode d1 b in
  (d2, out1 ++ out2).
Proof.
  revert d. induction a as [|x a IH]; intros d; simpl.
  - by destruct (decode d b).
  - destruct (decode_byte d x) as [d1 o1]. rewrite IH.
    destruct (decode d1 a) as [d2 o2]. destruct (decode d2 b) as [d3 o3].
    by rewrite app_assoc.
Qed.

(** Once the signal is set the line loop does nothing. *)
Lemma for_lines_aborted (lines : list jsstring) (s : World * StreamLocals) :
  signal && aborted s.1 = true → for_lines cbs signal lines s = (s, Ok tt).
Proof.
  intros Hs. destruct lines as [|line rest]; [done |].
  simpl. rewrite bind_run. simpl. by rewrite Hs.
Qed.

(** Once the signal is set the read loop does nothing. *)
Lemma read_loop_aborted fin rs d buffer (s : World * StreamLocals) :
  signal && aborted s.1 = true → read_loop cbs signal fin rs d buffer s = (s, Ok tt).
Proof.
  intros Hs. destruct rs as [|[during bytes] rest]; simpl;
    rewrite bind_run; simpl; by rewrite Hs.
Qed.

Lemma read_loop_nil fin d buffer d' buffer' (s : World * StreamLocals) :
  read_loop cbs signal fin [] d buffer s = read_loop cbs signal fin [] d' buffer' s.
Proof. done. Qed.

Lemma for_lines_app (l1 l2 : list jsstring) (s : World * StreamLocals) :
  for_lines cbs signal (l1 ++ l2) s
  = (for_lines cbs signal l1 ;; for_lines cbs signal l2) s.
Proof.
  revert s. induction l1 as [|line l1 IH]; intros s; [done |].
  rewrite bind_run. simpl. rewrite !bind_run. simpl.
  destruct (signal && aborted s.1) eqn:Hs.
  - simpl. by rewrite for_lines_aborted.
  - rewrite !bind_run.
    destruct (process_line cbs signal line s) as [s' [[]|t]]; [| done].
    rewrite IH. by rewrite bind_run.
Qed.

Lemma guard_run (m : M StreamLocals unit) (s : World * StreamLocals) :
  (ab ← signal_aborted signal; if (ab : bool) then mret tt else m) s
  = if signal && aborted s.1 then (s, Ok tt) else m s.
Proof. rewrite bind_run. simpl. by destruct (signal && aborted s.1). Qed.

(** One turn of the read loop that gets a chunk, with the read
    undisturbed. *)
Lemma read_loop_cons fin bytes rest d buffer (s : World * StreamLocals) :
  read_loop cbs signal fin (undisturbed bytes :: rest) d buffer s
  = if signal && aborted s.1 then (s, Ok tt)
    else
      (for_lines cbs signal (removelast (split_newline (buffer ++ (decode d bytes).2))) ;;
       ab ← signal_aborted signal;
       if (ab : bool) then mret tt
       else read_loop cbs signal fin rest (decode d bytes).1
              (default [] (last (split_newline (buffer ++ (decode d bytes).2))))) s.
Proof.
  cbn [undisturbed read_loop]. rewrite guard_run.
  destruct (signal && aborted s.1) eqn:Hs; [done |].
  rewrite bind_run, suspend_false, guard_run, Hs.
  by destruct (decode d bytes) as [d' decoded].
Qed.

(** With no read disturbed, the read loop runs the line loop over the
    lines the chunks complete, then makes its last turn. *)
Lemma read_loop_fed fin (chunks : list (list N)) d buffer (s : World * StreamLocals) :
  read_loop cbs signal fin (undisturbed <$> chunks) d buffer s
  = (for_lines cbs signal (fed_lines chunks d buffer) ;;
     read_loop cbs signal fin [] decoder_new []) s.
Proof.
  revert d buffer s. induction chunks as [|bytes rest IH]; intros d buffer s; [done |].
  cbn [fmap list_fmap fed_lines]. rewrite read_loop_cons.
  destruct (decode d bytes) as [d' decoded]. unfold pop. cbn [fst snd].
  rewrite (bind_run (for_lines _ _ (_ ++ _))), for_lines_app.
  destruct (signal && aborted s.1) eqn:Hs.
  - rewrite bind_run, !for_lines_aborted by done.
    by rewrite read_loop_aborted.
  - rewrite !bind_run.
    destruct (for_lines cbs signal _ s) as [s' [[]|t]]; [| done].
    rewrite guard_run.
    destruct (signal && aborted s'.1) eqn:Hs'.
    + rewrite for_lines_aborted by done. by rewrite read_loop_aborted.
    + rewrite IH. by rewrite bind_run.
Qed.

Lemma fed_lines_concat (chunks : list (list N)) d (t : jsstring) :
  removelast (split_newline t)
  ++ fed_lines chunks d (default [] (last (split_newline t)))
  = removelast (split_newline (t ++ (decode d (concat chunks)).2)).
Proof.
  revert d t. induction chunks as [|bytes rest IH]; intros d t.
  - simpl. by rewrite !app_nil_r.
  - cbn [concat fed_lines]. rewrite decode_app.
    destruct (decode d bytes) as [d1 o1]. unfold pop.
    specialize (IH d1 (default [] (last (split_newline t)) ++ o1)).
    destruct (decode d1 (concat rest)) as [d2 o2]. simpl in *.
    rewrite IH. rewrite (split_newline_app t (o1 ++ o2)).
    rewrite removelast_app by apply split_newline_nonempty.
    by rewrite app_assoc.
Qed.

Lemma fed_lines_whole (chunks : list (list N)) :
  fed_lines chunks decoder_new []
  = removelast (split_newline (decode decoder_new (concat chunks)).2).
Proof. exact (fed_lines_concat chunks decoder_new []). Qed.

(** C1. Chunk-boundary invariance. However the bytes of a payload are
    cut into reads, [handleStreamResponse] ends in the same world (the
    same callback invocations, [onComplete] with the same aggregated
    text among them), the same variables and the same result as when the
    payload comes in one read. The read loop hands to the line loop
    exactly the lines of the decoded payload that end in a newline, in
    order: the segment after the last newline stays in the buffer and is
    never parsed. *)
Theorem chunk_boundary_invariance (r : Response) (fin : bool * Ending)
    (chunks : list (list N)) (s : World * StreamLocals) :
  let payload := (decode decoder_new (concat chunks)).2 in
  handleStreamResponse (with_body r (undisturbed <$> chunks) fin) cbs signal s
  = handleStreamResponse (with_body r [undisturbed (concat chunks)] fin) cbs signal s
  ∧ read_loop cbs signal fin (undisturbed <$> chunks) decoder_new [] s
    = (for_lines cbs signal (removelast (split_newline payload)) ;;
       read_loop cbs signal fin [] decoder_new []) s.
Proof.
  intros payload.
  assert (Hloop : ∀ cs, concat cs = concat chunks →
            read_loop cbs signal fin (undisturbed <$> cs) decoder_new [] s
            = (for_lines cbs signal (removelast (split_newline payload)) ;;
               read_loop cbs signal fin [] decoder_new []) s).
  { intros cs Hcs. rewrite read_loop_fed, fed_lines_whole, Hcs. done. }
  split; [| by apply Hloop].
  unfold handleStreamResponse, with_body, try_catch. cbn [body reads finish].
  change [undisturbed (concat chunks)] with (undisturbed <$> [concat chunks]).
  rewrite !(bind_run (read_loop _ _ _ _ _ _)).
  rewrite (Hloop chunks eq_refl).
  rewrite (Hloop [concat chunks]); [done |].
  simpl. by rewrite app_nil_r.
Qed.
End Chunks.

(** ** Quiet callers *)

Section Quiet.
Context `{RT : Runtime}.

Lemma call_quiet {L A} (cb : option (Callback A)) (record : A → Call) (arg : A)
    (w : World) (l : L) :
  quiet cb →
  call cb record arg (w, l)
  = ((mkWorld (calls w ++ invocation cb (record arg)) (aborted w), l), Ok tt).
Proof.
  intros Hq. unfold call, invocation. destruct cb as [f|]; simpl.
  - rewrite (Hq f _ _ eq_refl). simpl. by rewrite orb_false_r.
  - destruct w. simpl. by rewrite app_nil_r.
Qed.

(** The model callback of a quiet caller. *)
Lemma emit_model_quiet (cbs : Callbacks) (m : value) (w : World) (l : StreamLocals) :
  quiet (onModel cbs) →
  emit_model cbs m (w, l)
  = if truthy m && negb (modelEmitted l)
    then ((mkWorld (calls w ++ invocation (onModel cbs) (OnModel m)) (aborted w),
           set_modelEmitted l), Ok tt)
    else ((w, l), Ok tt).
Proof.
  intros Hq. unfold emit_model, when. rewrite bind_run. cbn [get_local snd].
  destruct (truthy m && negb (modelEmitted l)); [| done].
  rewrite bind_run. cbn [modify_local fst snd]. by rewrite call_quiet.
Qed.

(** A text delta handled for a quiet caller that has not aborted: the
    model callback if the event names a model first, then the chunk. *)
Lemma handle_event_delta (cbs : Callbacks) (signal : bool) (data : jsstring)
    (e : value) (d : jsstring) (w : World) (l : StreamLocals) :
  well_behaved cbs →
  aborted w = false →
  JSON_parse data = Some e →
  getp_opt e (js "type") = JStr (js "response.output_text.delta") →
  getp_opt e (js "delta") = JStr d →
  d ≠ [] →
  ∃ (models : list Call) (l' : StreamLocals),
    handle_event cbs signal data (w, l)
    = ((mkWorld (calls w ++ models ++ invocation (onChunk cbs) (OnChunk (JStr d))) false,
        l'), Ok tt)
    ∧ Forall (λ c, is_model c = true) models
    ∧ aggregatedContent l' = aggregatedContent l ++ d
    ∧ fullReasoningContent l' = fullReasoningContent l
    ∧ lastTimings l' = lastTimings l.
Proof.
  intros (Hchunk & _ & _ & _ & _ & Hmodel & _) Hab Hparse Htype Hdelta Hd.
  destruct e as [| | | | | |props]; try discriminate Htype.
  cbn [getp_opt] in Htype, Hdelta.
  unfold handle_event, parseJSON. rewrite Hparse.
  run. rewrite Htype, Hdelta. eval_is_str. run.
  rewrite emit_model_quiet by done.
  assert (Hor : or_else (JStr d) (JStr []) = JStr d).
  { unfold or_else. simpl. by rewrite bool_decide_eq_false_2. }
  assert (Ht : truthy (JStr d) = true).
  { simpl. by rewrite bool_decide_eq_false_2. }
  destruct (truthy _ && negb (modelEmitted l));
    run; rewrite Hor, Ht; run; cbn [toString]; run; rewrite Hab, andb_false_r; run;
    rewrite call_quiet by done; run; rewrite ?Hab.
  - eexists (invocation (onModel cbs) _), _. rewrite <- app_assoc.
    split; [done |]. split; [| done].
    unfold invocation. destruct (onModel cbs); by repeat constructor.
  - eexists [], _. split; [done |]. split; [by constructor | done].
Qed.

Lemma process_line_data (cbs : Callbacks) (signal : bool) (data : jsstring)
    (s : World * StreamLocals) :
  process_line cbs signal (js "data: " ++ data) s
  = if str_eqb data (js "[DONE]") then (s, Ok tt)
    else try_catch (handle_event cbs signal data) (λ _, mret tt) s.
Proof.
  unfold process_line.
  change (startsWith (js "data: " ++ data) (js "event: ")) with false.
  rewrite startsWith_app.
  change (slice 6 (js "data: " ++ data)) with data.
  by destruct (str_eqb data (js "[DONE]")).
Qed.

(** A payload that does not parse leaves no trace. *)
Lemma process_line_malformed (cbs : Callbacks) (signal : bool) (data : jsstring)
    (s : World * StreamLocals) :
  JSON_parse data = None →
  process_line cbs signal (js "data: " ++ data) s = (s, Ok tt).
Proof.
  intros Hparse. rewrite process_line_data.
  destruct (str_eqb data (js "[DONE]")); [done |].
  unfold try_catch, handle_event, parseJSON. rewrite Hparse.
  by rewrite bind_run.
Qed.

Lemma filter_models (p : Call → bool) (models : list Call) :
  (∀ c, is_model c = true → p c = false) →
  Forall (λ c, is_model c = true) models →
  filter p models = [].
Proof.
  intros Hp. induction 1 as [|c cs Hc _ IH]; [done |].
  rewrite filter_cons_False; [done |]. rewrite (Hp c Hc). auto.
Qed.
End Quiet.

(** ** A malformed event *)

Section Malformed.
Context `{RT : Runtime}.

Lemma for_lines_cons cbs signal line rest (s : World * StreamLocals) :
  for_lines cbs signal (line :: rest) s
  = if signal && aborted s.1 then (s, Ok tt)
    else (process_line cbs signal line ;; for_lines cbs signal rest) s.
Proof. cbn [for_lines]. by rewrite guard_run. Qed.

Lemma not_elem_of_data (j : jsstring) : 10 ∉ j → 10 ∉ js "data: " ++ j.
Proof.
  intros Hj [H|H]%elem_of_app; [| done].
  revert H. change (10 ∉ js "data: ").
  by apply (bool_decide_eq_false (10 ∈ js "data: ")).
Qed.

Lemma split_newline_framed (lines : list jsstring) :
  Forall (λ l : jsstring, 10 ∉ l) lines →
  split_newline (framed lines) = lines ++ [[]].
Proof.
  induction 1 as [|l ls Hl _ IH]; [done |].
  unfold framed. rewrite bind_cons, <- app_assoc. cbn [app].
  rewrite split_newline_line by done. by f_equal.
Qed.

Lemma process_line_ignored cbs signal line (s : World * StreamLocals) :
  ignored line = true → process_line cbs signal line s = (s, Ok tt).
Proof.
  unfold ignored, process_line.
  destruct (startsWith line (js "event: ")); [done |].
  destruct (startsWith line (js "data: ")); [| done].
  cbn [orb negb]. by intros ->.
Qed.

Lemma for_lines_ignored cbs signal lines (s : World * StreamLocals) :
  Forall (λ l, ignored l = true) lines → for_lines cbs signal lines s = (s, Ok tt).
Proof.
  induction 1 as [|l ls Hl _ IH]; [done |].
  rewrite for_lines_cons. destruct (signal && aborted s.1); [done |].
  by rewrite bind_run, process_line_ignored.
Qed.

(** C4. A stream in which a [data:] line that does not parse stands
    between two text deltas [d1] and [d2], with any lines the handler
    passes over (event names, blank lines, [data: [DONE]]) around them:
    however the stream is cut into reads, a caller whose callbacks return
    normally gets the chunks [d1] and [d2] in this order, one completion
    with [d1 ++ d2], no error, and the handler returns normally. *)
Theorem malformed_event_is_skipped (cbs : Callbacks) (signal : bool) (r : Response)
    (chunks : list (list N)) (before between1 between2 after : list jsstring)
    (j1 bad j2 : jsstring) (e1 e2 : value) (d1 d2 : jsstring) :
  well_behaved cbs →
  (decode decoder_new (concat chunks)).2
  = framed (before ++ [js "data: " ++ j1] ++ between1 ++ [js "data: " ++ bad]
            ++ between2 ++ [js "data: " ++ j2] ++ after) →
  Forall (λ l : jsstring, 10 ∉ l)
    (before ++ [j1] ++ between1 ++ [bad] ++ between2 ++ [j2] ++ after) →
  Forall (λ l, ignored l = true) (before ++ between1 ++ between2 ++ after) →
  JSON_parse bad = None →
  j1 ≠ js "[DONE]" → JSON_parse j1 = Some e1 →
  getp_opt e1 (js "type") = JStr (js "response.output_text.delta") →
  getp_opt e1 (js "delta") = JStr d1 → d1 ≠ [] →
  j2 ≠ js "[DONE]" → JSON_parse j2 = Some e2 →
  getp_opt e2 (js "type") = JStr (js "response.output_text.delta") →
  getp_opt e2 (js "delta") = JStr d2 → d2 ≠ [] →
  ∃ (w' : World) (l' : StreamLocals),
    handleStreamResponse (with_body r (undisturbed <$> chunks) (false, Done))
      cbs signal (mkWorld [] false, stream_start)
    = ((w', l'), Ok tt)
    ∧ filter is_chunk (calls w')
      = invocation (onChunk cbs) (OnChunk (JStr d1))
        ++ invocation (onChunk cbs) (OnChunk (JStr d2))
    ∧ filter is_complete (calls w')
      = invocation (onComplete cbs) (OnComplete (d1 ++ d2) None None)
    ∧ filter is_error (calls w') = [].
Proof.
  intros Hwb Hpayload Hnl Hign Hbad Hdone1 Hp1 Ht1 Hd1 Hne1 Hdone2 Hp2 Ht2 Hd2 Hne2.
  apply Forall_app in Hnl as [Hnl0 Hnl]. apply Forall_cons in Hnl as [Hn1 Hnl].
  apply Forall_app in Hnl as [Hnl1 Hnl]. apply Forall_cons in Hnl as [Hnb Hnl].
  apply Forall_app in Hnl as [Hnl2 Hnl]. apply Forall_cons in Hnl as [Hn2 Hnl3].
  apply Forall_app in Hign as [Hi0 Hign]. apply Forall_app in Hign as [Hi1 Hign].
  apply Forall_app in Hign as [Hi2 Hi3].
  unfold handleStreamResponse, with_body, try_catch. cbn [body reads finish].
  rewrite (bind_run (read_loop _ _ _ _ _ _)).
  rewrite read_loop_fed, fed_lines_whole, Hpayload.
  rewrite split_newline_framed.
  2:{ cbn [app].
      apply Forall_app; split; [done |].
      apply Forall_cons; split; [by apply not_elem_of_data |].
      apply Forall_app; split; [done |].
      apply Forall_cons; split; [by apply not_elem_of_data |].
      apply Forall_app; split; [done |].
      apply Forall_cons; split; [by apply not_elem_of_data | done]. }
  rewrite !app_assoc, removelast_last, <- !app_assoc.
  rewrite bind_run.
  (* the lines before the first delta *)
  rewrite for_lines_app, bind_run, for_lines_ignored by done.
  (* the first delta *)
  cbn [app]. rewrite for_lines_cons. cbn [fst aborted]. rewrite andb_false_r.
  rewrite bind_run, process_line_data.
  rewrite (bool_decide_eq_false_2 _ Hdone1 : str_eqb j1 (js "[DONE]") = false).
  unfold try_catch at 1.
  destruct (handle_event_delta cbs signal j1 e1 d1 (mkWorld [] false) stream_start)
    as (m1 & l1 & -> & Hm1 & Ha1 & Hr1 & Hl1); try done.
  (* up to the malformed line, and the line itself *)
  rewrite for_lines_app, bind_run, for_lines_ignored by done.
  cbn [app]. rewrite for_lines_cons. cbn [fst aborted]. rewrite andb_false_r.
  rewrite bind_run, process_line_malformed by done.
  (* up to the second delta, and the delta *)
  rewrite for_lines_app, bind_run, for_lines_ignored by done.
  cbn [app]. rewrite for_lines_cons. cbn [fst aborted]. rewrite andb_false_r.
  rewrite bind_run, process_line_data.
  rewrite (bool_decide_eq_false_2 _ Hdone2 : str_eqb j2 (js "[DONE]") = false).
  unfold try_catch at 1.
  match goal with
  | |- context [handle_event cbs signal j2 (?w, l1)] =>
      destruct (handle_event_delta cbs signal j2 e2 d2 w l1)
        as (m2 & l2 & -> & Hm2 & Ha2 & Hr2 & Hl2); try done
  end.
  rewrite for_lines_ignored by done.
  (* the last turn and the completion *)
  cbn [read_loop]. rewrite guard_run. cbn [fst aborted]. rewrite andb_false_r.
  rewrite bind_run, suspend_false. cbn [snd mret M_ret].
  rewrite guard_run. cbn [fst aborted]. rewrite andb_false_r.
  run. destruct Hwb as (_ & Hcomplete & _).
  rewrite call_quiet by done. cbn [fst snd].
  rewrite Ha2, Ha1, Hr2, Hr1, Hl2, Hl1. cbn [stream_start aggregatedContent
    fullReasoningContent lastTimings nonempty app].
  eexists _, _. split; [done |]. cbn [calls app].
  assert (Hfi : ∀ (A : Type) (p : Call → bool) (cb : option (Callback A)) c,
            filter p (invocation cb c) = if p c then invocation cb c else []).
  { intros A p cb c. destruct cb; simpl; [| by destruct (p c)].
    destruct (p c) eqn:Hpc.
    - rewrite filter_cons_True; [done | by rewrite Hpc].
    - rewrite filter_cons_False; [done | rewrite Hpc; auto]. }
  rewrite !filter_app, !Hfi. simpl.
  rewrite !(filter_models is_chunk), !(filter_models is_complete),
    !(filter_models is_error); try done; try by intros [].
  by rewrite !app_nil_r.
Qed.
End Malformed.

(** ** The non-stream handler *)

Section NonStream.
Context `{RT : Runtime}.

(** Whatever a callback does, it leaves its record and nothing else. *)
Lemma call_run {L A} (cb : option (Callback A)) (record : A → Call) (arg : A)
    (w : World) (l : L) :
  ∃ ab res,
    call cb record arg (w, l)
    = ((mkWorld (calls w ++ invocation cb (record arg)) (aborted w || ab), l), res)
    ∧ (quiet cb → ab = false ∧ res = Ok tt).
Proof.
  unfold call, invocation. destruct cb as [f|]; cbn [fst snd].
  - eexists _, _. split; [done |]. intros Hq. by rewrite (Hq f _ _ eq_refl).
  - exists false, (Ok tt). destruct w. simpl. by rewrite app_nil_r, orb_false_r.
Qed.

Lemma collect_text_concat (tag : jsstring) (parts : list value) (acc : jsstring) :
  Forall (λ part, nullish part = false
                  ∧ convertible (getp_opt part (js "text")) = true) parts →
  collect_text tag parts acc = Ok (acc ++ parts ≫= text_of tag).
Proof.
  intros Hparts. revert acc.
  induction Hparts as [|part parts [Hpart Htext] _ IH]; intros acc.
  - cbn [collect_text]. by rewrite app_nil_r.
  - cbn [collect_text]. rewrite !getp_defined by done. cbn [mbind result_bind].
    rewrite bind_cons. unfold text_of at 1.
    destruct (is_str (getp_opt part (js "type")) tag); [| by rewrite IH].
    rewrite toString_convertible.
    assert (convertible (or_else (getp_opt part (js "text")) (JStr [])) = true) as ->.
    { unfold or_else. by destruct (truthy _). }
    cbn [mbind result_bind]. by rewrite IH, app_assoc.
Qed.

Lemma collect_output_concat (items : list value) (acc : jsstring * jsstring) :
  Forall walkable items →
  collect_output items acc
  = Ok (acc.1 ++ items ≫= item_text (js "message") (js "output_text"),
        acc.2 ++ items ≫= item_text (js "reasoning") (js "reasoning_summary_text")).
Proof.
  intros Hitems. revert acc.
  induction Hitems as [|item items [Hitem Hcontent] _ IH]; intros [content reasoning].
  - cbn [collect_output fst snd]. by rewrite !app_nil_r.
  - cbn [collect_output fst snd]. rewrite !getp_defined by done.
    cbn [mbind result_bind]. rewrite !bind_cons.
    change (item_text ?kind ?tag item)
      with (if is_str (getp_opt item (js "type")) kind
            then match getp_opt item (js "content") with
                 | JArr parts => parts ≫= text_of tag
                 | _ => []
                 end
            else []).
    destruct (getp_opt item (js "content")) as [| | | | |parts|] eqn:Hc; try done.
    + destruct (is_str _ (js "message")), (is_str _ (js "reasoning"));
        cbn [truthy or_else iterate mret result_ret mbind result_bind collect_text];
        rewrite IH; cbn [fst snd]; by rewrite ?app_nil_r.
    + destruct (is_str _ (js "message")), (is_str _ (js "reasoning"));
        cbn [truthy or_else iterate mret result_ret mbind result_bind];
        rewrite ?collect_text_concat by done;
        cbn [mret result_ret mbind result_bind];
        rewrite IH; cbn [fst snd]; by rewrite ?app_assoc, ?app_nil_r.
Qed.







(** sendMessage on a successful response when streaming was not asked
    for: what the non-stream handler does, nothing more. *)
Lemma sendMessage_nonstream (messages : list Message) (options : Options)
    (signal : bool) (fetch : gmap jsstring BodyValue → result Response)
    (response : Response) (w : World) :
  default false (stream options) = false →
  fetch (JSON_stringify (requestBody options (convertMessagesToInput messages)))
  = Ok response →
  ok response = true →
  sendMessage messages options signal fetch (w, tt)
  = (content ← handleNonStreamResponse response (callbacks options);
     mret (Some content)) (w, tt).
Proof.
  intros Hstream Hfetch Hok. unfold sendMessage, try_catch.
  rewrite bind_run, Hfetch. rewrite bind_run. cbn [liftR].
  by rewrite Hok, Hstream.
Qed.


End NonStream.

(** ** Cancellation *)

Section Cancellation.
Context `{RT : Runtime}.

(** sendMessage when streaming was asked for and the response is a
    success: what the stream handler does; a rejection of the handler
    goes through the [catch]. *)
Lemma sendMessage_stream (messages : list Message) (options : Options)
    (signal : bool) (fetch : gmap jsstring BodyValue → result Response)
    (response : Response) (w : World) :
  default false (stream options) = true →
  fetch (JSON_stringify (requestBody options (convertMessagesToInput messages)))
  = Ok response →
  ok response = true →
  sendMessage messages options signal fetch (w, tt)
  = match handleStreamResponse response (callbacks options) signal (w, stream_start) with
    | (s', Ok _) => ((s'.1, tt), Ok None)
    | (s', Throw error) =>
        if isAbortError error then ((s'.1, tt), Ok None)
        else
          (call (onError (callbacks options)) OnError (userFriendlyError error);;
           throw (ThrowError (userFriendlyError error))) (s'.1, tt)
    end.
Proof.
  intros Hstream Hfetch Hok. unfold sendMessage, try_catch, with_locals.
  rewrite bind_run, Hfetch. rewrite bind_run. cbn [liftR].
  rewrite Hok, Hstream. cbn [negb]. rewrite bind_run. cbn [fst snd].
  destruct (handleStreamResponse _ _ _ _) as [[w' l'] [[]|error]]; cbn [fst snd].
  - done.
  - destruct (isAbortError error); [done |].
    rewrite !bind_run.
    by destruct (call _ _ _ _) as [s' [[]|t]].
Qed.

End Cancellation.

(** ** What the stream handler keeps *)

Section Advances.
Context `{RT : Runtime}.
Context (cbs : Callbacks) (signal : bool).

Lemma delivered_app (a b : list Call) : delivered (a ++ b) = delivered a ++ delivered b.
Proof. apply bind_app. Qed.

Lemma reasoned_app (a b : list Call) : reasoned (a ++ b) = reasoned a ++ reasoned b.
Proof. apply bind_app. Qed.

Lemma reported_app init (a b : list Call) :
  reported init (a ++ b) = reported (reported init a) b.
Proof. apply foldl_app. Qed.

Lemma advances_preorder : PreOrder (advances cbs signal).
Proof.
  split.
  - intros s. split; [done |]. exists []. rewrite app_nil_r.
    split; [done |]. split; [constructor |]. split; [done |].
    intros _. split; intros _; by rewrite app_nil_r.
  - intros s s' s'' (Hab1 & new1 & Hc1 & Hp1 & Ht1 & Hd1) (Hab2 & new2 & Hc2 & Hp2 & Ht2 & Hd2).
    split; [auto |]. exists (new1 ++ new2).
    split; [by rewrite Hc2, Hc1, app_assoc |].
    split; [by apply Forall_app |].
    split; [intros Ht; by rewrite reported_app, Ht2, Ht1 |].
    intros Hs.
    assert (Hs' : signal && aborted s'.1 = false).
    { destruct signal; [| done]. destruct (aborted s'.1) eqn:E; [| done].
      simpl in Hs. rewrite Hab2 in Hs; done. }
    destruct (Hd1 Hs') as [Ha1 Hr1]. destruct (Hd2 Hs) as [Ha2 Hr2].
    split; intros H.
    + by rewrite delivered_app, Ha2, Ha1, app_assoc.
    + by rewrite reasoned_app, Hr2, Hr1, app_assoc.
Qed.

#[local] Existing Instance advances_preorder.

(** One step that adds the calls [new] and keeps the variables in step. *)
Lemma advances_intro (s s' : World * StreamLocals) (new : list Call) :
  (aborted s.1 = true → aborted s'.1 = true) →
  calls s'.1 = calls s.1 ++ new →
  Forall (λ c, is_progress c = true) new →
  (is_Some (onTimings cbs) → lastTimings s'.2 = reported (lastTimings s.2) new) →
  (signal && aborted s'.1 = false → is_Some (onChunk cbs) →
   aggregatedContent s'.2 = aggregatedContent s.2 ++ delivered new) →
  (signal && aborted s'.1 = false → is_Some (onReasoningChunk cbs) →
   fullReasoningContent s'.2 = fullReasoningContent s.2 ++ reasoned new) →
  advances cbs signal s s'.
Proof. intros. split; [done |]. exists new. auto 10. Qed.

Lemma invocation_progress {A} (cb : option (Callback A)) (c : Call) :
  is_progress c = true → Forall (λ c, is_progress c = true) (invocation cb c).
Proof. intros Hc. unfold invocation. destruct cb; by repeat constructor. Qed.

(** A callback that touches none of the three variables. *)
Lemma advances_call {A} (cb : option (Callback A)) (record : A → Call) (arg : A) :
  is_progress (record arg) = true →
  delivered [record arg] = [] →
  reasoned [record arg] = [] →
  (∀ init, reported init [record arg] = init) →
  steps (advances cbs signal) (call cb record arg : M StreamLocals unit).
Proof.
  intros Hp Hd Hr Ht [w l].
  destruct (call_run cb record arg w l) as (ab & res & -> & _).
  apply (advances_intro _ _ (invocation cb (record arg))); cbn [fst snd calls aborted].
  - by intros ->.
  - done.
  - by apply invocation_progress.
  - intros _. unfold invocation. by destruct cb.
  - intros _ _. unfold invocation. destruct cb; [by rewrite Hd, app_nil_r | by rewrite app_nil_r].
  - intros _ _. unfold invocation. destruct cb; [by rewrite Hr, app_nil_r | by rewrite app_nil_r].
Qed.

Lemma advances_suspend (b : bool) :
  steps (advances cbs signal) (suspend b : M StreamLocals unit).
Proof.
  intros [w l]. apply (advances_intro _ _ []); cbn [suspend fst snd calls aborted].
  - by intros ->.
  - by rewrite app_nil_r.
  - constructor.
  - done.
  - intros _ _. by rewrite app_nil_r.
  - intros _ _. by rewrite app_nil_r.
Qed.

Lemma advances_set_modelEmitted :
  steps (advances cbs signal) (modify_local set_modelEmitted).
Proof.
  intros [w l]. apply (advances_intro _ _ []); cbn [modify_local fst snd calls aborted];
    try done; try (intros _ _; by rewrite app_nil_r).
  by rewrite app_nil_r.
Qed.

Lemma advances_emit_model (m : value) : steps (advances cbs signal) (emit_model cbs m).
Proof.
  unfold emit_model.
  apply steps_bind; [apply _ | apply steps_get_local; apply _ | intros l].
  apply steps_when; [apply _ |].
  apply steps_bind; [apply _ | apply advances_set_modelEmitted | intros _].
  by apply advances_call.
Qed.

(** [aggregatedContent += delta; if (!aborted) onChunk?.(delta)] *)
Lemma advances_chunk (delta : value) :
  steps (advances cbs signal)
    (text ← liftR (toString delta);
     modify_local (add_content text);;
     ab ← signal_aborted signal;
     when (negb ab) (call (onChunk cbs) OnChunk delta)).
Proof.
  intros [w l]. rewrite bind_run. cbn [liftR].
  destruct (toString delta) as [text|t] eqn:Htext; [| reflexivity].
  run. destruct (signal && aborted w) eqn:Hs; cbn [negb when].
  - apply (advances_intro _ _ []); cbn [mret M_ret fst snd calls aborted add_content
      lastTimings aggregatedContent fullReasoningContent].
    + done.
    + by rewrite app_nil_r.
    + constructor.
    + done.
    + intros H. by rewrite H in Hs.
    + intros _ _. by rewrite app_nil_r.
  - destruct (call_run (onChunk cbs) OnChunk delta w (add_content text l))
      as (ab & res & -> & _).
    apply (advances_intro _ _ (invocation (onChunk cbs) (OnChunk delta)));
      cbn [fst snd calls aborted add_content lastTimings aggregatedContent
           fullReasoningContent].
    + by intros ->.
    + done.
    + by apply invocation_progress.
    + intros _. unfold invocation. by destruct (onChunk cbs).
    + intros _ [f Hf]. rewrite Hf. cbn [invocation]. unfold delivered, string_of.
      by rewrite bind_cons, Htext, !app_nil_r.
    + intros _ _. unfold invocation. destruct (onChunk cbs); by rewrite app_nil_r.
Qed.

(** [fullReasoningContent += delta; if (!aborted) onReasoningChunk?.(delta)] *)
Lemma advances_reasoning (delta : value) :
  steps (advances cbs signal)
    (text ← liftR (toString delta);
     modify_local (add_reasoning text);;
     ab ← signal_aborted signal;
     when (negb ab) (call (onReasoningChunk cbs) OnReasoningChunk delta)).
Proof.
  intros [w l]. rewrite bind_run. cbn [liftR].
  destruct (toString delta) as [text|t] eqn:Htext; [| reflexivity].
  run. destruct (signal && aborted w) eqn:Hs; cbn [negb when].
  - apply (advances_intro _ _ []); cbn [mret M_ret fst snd calls aborted add_reasoning
      lastTimings aggregatedContent fullReasoningContent].
    + done.
    + by rewrite app_nil_r.
    + constructor.
    + done.
    + intros _ _. by rewrite app_nil_r.
    + intros H. by rewrite H in Hs.
  - destruct (call_run (onReasoningChunk cbs) OnReasoningChunk delta w
                (add_reasoning text l))
      as (ab & res & -> & _).
    apply (advances_intro _ _ (invocation (onReasoningChunk cbs) (OnReasoningChunk delta)));
      cbn [fst snd calls aborted add_reasoning lastTimings aggregatedContent
           fullReasoningContent].
    + by intros ->.
    + done.
    + by apply invocation_progress.
    + intros _. unfold invocation. by destruct (onReasoningChunk cbs).
    + intros _ _. unfold invocation. destruct (onReasoningChunk cbs); by rewrite app_nil_r.
    + intros _ [f Hf]. rewrite Hf. cbn [invocation]. unfold reasoned, string_of.
      by rewrite bind_cons, Htext, !app_nil_r.
Qed.

(** [lastTimings = t; onTimings?.(t)] *)
Lemma advances_timings (t : Timings) :
  steps (advances cbs signal)
    (modify_local (set_lastTimings t);; call (onTimings cbs) OnTimings t).
Proof.
  intros [w l]. run.
  destruct (call_run (onTimings cbs) OnTimings t w (set_lastTimings t l))
    as (ab & res & -> & _).
  apply (advances_intro _ _ (invocation (onTimings cbs) (OnTimings t)));
    cbn [fst snd calls aborted set_lastTimings lastTimings aggregatedContent
         fullReasoningContent].
  - by intros ->.
  - done.
  - by apply invocation_progress.
  - intros [f Hf]. by rewrite Hf.
  - intros _ _. unfold invocation. destruct (onTimings cbs); by rewrite app_nil_r.
  - intros _ _. unfold invocation. destruct (onTimings cbs); by rewrite app_nil_r.
Qed.

Ltac advance :=
  repeat first
    [ apply advances_preorder
    | match goal with |- ∀ _, _ => intros ? end
    | apply advances_emit_model
    | apply advances_chunk
    | apply advances_reasoning
    | apply advances_timings
    | apply steps_bind
    | apply steps_try_catch
    | apply steps_when
    | apply steps_if
    | apply steps_ret | apply steps_throw | apply steps_liftR
    | apply steps_get_local | apply steps_signal_aborted
    | apply advances_suspend
    | apply advances_call; done ].

Lemma advances_handle_event (data : jsstring) :
  steps (advances cbs signal) (handle_event cbs signal data).
Proof. unfold handle_event. advance. Qed.

Lemma advances_process_line (line : jsstring) :
  steps (advances cbs signal) (process_line cbs signal line).
Proof.
  unfold process_line.
  repeat apply steps_if; try (apply steps_ret; apply _).
  apply steps_try_catch; [apply _ | apply advances_handle_event | advance].
Qed.

Lemma advances_for_lines (lines : list jsstring) :
  steps (advances cbs signal) (for_lines cbs signal lines).
Proof.
  induction lines as [|line rest IH]; simpl; [advance |].
  apply steps_bind; [apply _ | advance | intros ab].
  apply steps_if; [advance |].
  apply steps_bind; [apply _ | apply advances_process_line | intros _; apply IH].
Qed.

Lemma advances_read_loop fin rs d buffer :
  steps (advances cbs signal) (read_loop cbs signal fin rs d buffer).
Proof.
  revert d buffer. induction rs as [|[during bytes] rest IH]; intros d buffer; simpl.
  - advance. destruct (snd fin); advance.
  - apply steps_bind; [apply _ | advance | intros ab].
    apply steps_if; [advance |].
    apply steps_bind; [apply _ | advance | intros _].
    apply steps_bind; [apply _ | advance | intros ab'].
    apply steps_if; [advance |].
    destruct (decode d bytes) as [d' decoded].
    unfold pop.
    apply steps_bind; [apply _ | apply advances_for_lines | intros _].
    apply steps_bind; [apply _ | advance | intros ab''].
    apply steps_if; [advance | apply IH].
Qed.

(** The inner [try] swallows whatever handling a line throws. *)
Lemma process_line_returns (line : jsstring) (s : World * StreamLocals) :
  (process_line cbs signal line s).2 = Ok tt.
Proof.
  unfold process_line.
  destruct (startsWith line (js "event: ")); [done |].
  destruct (startsWith line (js "data: ")); [| done].
  destruct (str_eqb _ _); [done |].
  unfold try_catch. by destruct (handle_event _ _ _ s) as [s' [[]|t]].
Qed.

Lemma for_lines_returns (lines : list jsstring) (s : World * StreamLocals) :
  (for_lines cbs signal lines s).2 = Ok tt.
Proof.
  revert s. induction lines as [|line rest IH]; intros s; [done |].
  rewrite for_lines_cons. destruct (signal && aborted s.1); [done |].
  rewrite bind_run. pose proof (process_line_returns line s) as H.
  destruct (process_line cbs signal line s) as [s' r]. simpl in H. subst r. apply IH.
Qed.

(** The read loop fails only when a read rejects. *)
Lemma read_loop_returns fin rs d buffer (s : World * StreamLocals) :
  snd fin = Done → (read_loop cbs signal fin rs d buffer s).2 = Ok tt.
Proof.
  intros Hfin. revert d buffer s.
  induction rs as [|[during bytes] rest IH]; intros d buffer s; cbn [read_loop];
    rewrite guard_run; destruct (signal && aborted s.1); try done.
  - rewrite bind_run. cbn [suspend]. by rewrite Hfin.
  - rewrite bind_run. cbn [suspend]. rewrite guard_run. cbn [fst].
    destruct (signal && _); [done |].
    destruct (decode d bytes) as [d' decoded]. unfold pop.
    rewrite bind_run.
    pose proof (for_lines_returns (removelast (split_newline (buffer ++ decoded)))
                  (mkWorld (calls s.1) (aborted s.1 || during), s.2)) as H.
    destruct (for_lines _ _ _ _) as [s' r]. simpl in H. subst r.
    rewrite guard_run. destruct (signal && aborted s'.1); [done |]. apply IH.
Qed.

End Advances.

Section Completion.
Context `{RT : Runtime}.

Lemma invocation_error_quiet {A} (cb : option (Callback A)) (e : JSError) :
  delivered (invocation cb (OnError e)) = []
  ∧ reasoned (invocation cb (OnError e)) = []
  ∧ (∀ init, reported init (invocation cb (OnError e)) = init).
Proof. unfold invocation. by destruct cb. Qed.

(** X1. A stream that ends with a read reporting [done] never makes the
    stream handler fail, whatever the bytes are and whatever the chunk,
    reasoning, tool-call, model and timings callbacks do, provided
    [onComplete] returns normally: the handler returns, the calls it
    adds are progress callbacks followed, unless the signal is set by
    then, by the one [onComplete] call, which carries the final values
    of the three accumulators; [onError] is not invoked. *)
Theorem healthy_stream_completes_once (response : Response) (stream : Stream)
    (cbs : Callbacks) (signal : bool) (s : World * StreamLocals) :
  body response = Some stream →
  snd (finish stream) = Done →
  quiet (onComplete cbs) →
  ∃ (s' : World * StreamLocals) (new : list Call),
    handleStreamResponse response cbs signal s = (s', Ok tt)
    ∧ Forall (λ c, is_progress c = true) new
    ∧ calls s'.1
      = calls s.1 ++ new
        ++ (if signal && aborted s'.1 then []
            else invocation (onComplete cbs)
                   (OnComplete (aggregatedContent s'.2)
                      (nonempty (fullReasoningContent s'.2)) (lastTimings s'.2))).
Proof.
  intros Hbody Hfin Hq. unfold handleStreamResponse, try_catch. rewrite Hbody.
  rewrite bind_run.
  pose proof (read_loop_returns cbs signal (finish stream) (reads stream) decoder_new [] s Hfin)
    as Hres.
  destruct (advances_read_loop cbs signal (finish stream) (reads stream) decoder_new [] s)
    as (_ & new & Hcalls & Hnew & _).
  destruct (read_loop _ _ _ _ _ _ s) as [[w1 l1] r]. cbn [fst snd] in *. subst r.
  rewrite guard_run. cbn [fst].
  destruct (signal && aborted w1) eqn:Hs.
  - exists (w1, l1), new. cbn [fst snd]. rewrite Hs, app_nil_r. done.
  - rewrite bind_run. cbn [get_local snd]. rewrite call_quiet by done.
    eexists (_, l1), new. split; [done |]. cbn [fst snd calls aborted].
    by rewrite Hs, Hcalls, <- app_assoc.
Qed.

(** X2. What [onComplete] is given sums up the run. In every run of the
    stream handler, with any callbacks, stream and signal, an
    [onComplete] call among the calls added carries: the concatenation
    of the chunks [onChunk] was given, if [onChunk] was passed; the
    concatenation of the chunks [onReasoningChunk] was given, or
    [undefined] if that is empty, if [onReasoningChunk] was passed; the
    timings of the last [onTimings] call, or [undefined] if there was
    none, if [onTimings] was passed. *)
Theorem completion_sums_up_the_stream (response : Response) (cbs : Callbacks)
    (signal : bool) (w : World) :
  ∃ new : list Call,
    calls (handleStreamResponse response cbs signal (w, stream_start)).1.1
    = calls w ++ new
    ∧ ∀ resp reas tim,
        OnComplete resp reas tim ∈ new →
        (is_Some (onChunk cbs) → resp = delivered new)
        ∧ (is_Some (onReasoningChunk cbs) → reas = nonempty (reasoned new))
        ∧ (is_Some (onTimings cbs) → tim = reported None new).
Proof.
  unfold handleStreamResponse, try_catch.
  destruct (body response) as [stream|].
  2: { exists []. cbn [throw fst snd]. rewrite app_nil_r. split; [done |].
       intros resp reas tim H. by apply elem_of_nil in H. }
  rewrite bind_run.
  destruct (advances_read_loop cbs signal (finish stream) (reads stream) decoder_new []
              (w, stream_start))
    as (_ & new & Hcalls & Hnew & Htim & Hacc).
  assert (Hnone : ∀ resp reas tim, OnComplete resp reas tim ∉ new).
  { intros resp reas tim Hin. rewrite Forall_forall in Hnew. by specialize (Hnew _ Hin). }
  destruct (read_loop _ _ _ _ _ _ _) as [[w1 l1] [[]|t]]; cbn [fst snd] in *.
  - rewrite guard_run. cbn [fst].
    destruct (signal && aborted w1) eqn:Hs.
    { exists new. cbn [fst]. split; [done |]. intros resp reas tim Hin.
      by destruct (Hnone _ _ _ Hin). }
    rewrite bind_run. cbn [get_local snd].
    destruct (call_run (onComplete cbs) (λ a, OnComplete a.1.1 a.1.2 a.2)
                (aggregatedContent l1, nonempty (fullReasoningContent l1), lastTimings l1)
                w1 l1) as (ab & res & -> & _).
    cbn [fst snd].
    set (done := invocation (onComplete cbs) _).
    assert (Hsum : ∀ errs : list Call,
              delivered errs = [] → reasoned errs = [] →
              (∀ init, reported init errs = init) →
              (∀ resp reas tim, OnComplete resp reas tim ∉ errs) →
              ∀ resp reas tim,
                OnComplete resp reas tim ∈ new ++ done ++ errs →
                (is_Some (onChunk cbs) → resp = delivered (new ++ done ++ errs))
                ∧ (is_Some (onReasoningChunk cbs) →
                   reas = nonempty (reasoned (new ++ done ++ errs)))
                ∧ (is_Some (onTimings cbs) → tim = reported None (new ++ done ++ errs))).
    { intros errs Hd Hr Ht Herrs resp reas tim Hin.
      apply elem_of_app in Hin as [Hin | Hin]; [by destruct (Hnone _ _ _ Hin) |].
      apply elem_of_app in Hin as [Hin | Hin]; [| by destruct (Herrs _ _ _ Hin)].
      subst done. unfold invocation in *. destruct (onComplete cbs) as [f|];
        [| by apply elem_of_nil in Hin].
      apply list_elem_of_singleton in Hin. injection Hin as -> -> ->.
      destruct (Hacc eq_refl) as [Ha Hr'].
      rewrite !delivered_app, !reasoned_app, !reported_app, Hd, Hr, Ht.
      cbn [delivered reasoned reported mbind list_bind foldl app].
      rewrite !app_nil_r.
      split; [intros H; by rewrite (Ha H) |].
      split; [intros H; by rewrite (Hr' H) | intros H; by rewrite (Htim H)]. }
    destruct res as [[]|t]; cbn [fst snd calls].
    + exists (new ++ done ++ []).
      split; [by rewrite Hcalls, app_nil_r, <- app_assoc |].
      apply Hsum; try done. intros resp reas tim H. by apply elem_of_nil in H.
    + rewrite bind_run.
      destruct (call_run (onError cbs) OnError (as_error t (js "Stream error"))
                  (mkWorld (calls w1 ++ done) (aborted w1 || ab)) l1)
        as (ab' & res' & -> & _).
      cbn [fst snd calls].
      set (errs := invocation (onError cbs) _).
      exists (new ++ done ++ errs).
      split.
      { destruct res' as [[]|t']; cbn [fst snd calls throw];
          by rewrite Hcalls, <- !app_assoc. }
      destruct (invocation_error_quiet (onError cbs) (as_error t (js "Stream error")))
        as (Hd & Hr & Ht).
      apply Hsum; try done.
      intros resp reas tim. subst errs. unfold invocation. destruct (onError cbs).
      * intros H. apply list_elem_of_singleton in H. discriminate H.
      * apply not_elem_of_nil.
  - destruct (call_run (onError cbs) OnError (as_error t (js "Stream error")) w1 l1)
      as (ab' & res' & Hcall & _).
    rewrite bind_run, Hcall.
    exists (new ++ invocation (onError cbs) (OnError (as_error t (js "Stream error")))).
    split.
    { destruct res' as [[]|t']; cbn [fst snd calls throw]; by rewrite Hcalls, <- !app_assoc. }
    intros resp reas tim Hin.
    apply elem_of_app in Hin as [Hin | Hin]; [by destruct (Hnone _ _ _ Hin) |].
    unfold invocation in Hin. destruct (onError cbs).
    + apply list_elem_of_singleton in Hin. discriminate Hin.
    + by apply elem_of_nil in Hin.
Qed.

End Completion.

(** ** The signal *)

Section Abort.
Context `{RT : Runtime}.
Context (cbs : Callbacks).

Lemma heeds_abort_app (history a b : list Call) (ab : bool) :
  heeds_abort cbs history (a ++ b) ab
  = heeds_abort cbs history a ab
    && heeds_abort cbs (history ++ a) b (aborted_after cbs history a ab).
Proof.
  revert history ab. induction a as [|c a IH]; intros history ab.
  - cbn [app heeds_abort aborted_after andb]. by rewrite app_nil_r.
  - cbn [app heeds_abort aborted_after]. rewrite IH, <- app_assoc, andb_assoc. done.
Qed.

Lemma aborted_after_app (history a b : list Call) (ab : bool) :
  aborted_after cbs history (a ++ b) ab
  = aborted_after cbs (history ++ a) b (aborted_after cbs history a ab).
Proof.
  revert history ab. induction a as [|c a IH]; intros history ab.
  - cbn [app aborted_after]. by rewrite app_nil_r.
  - cbn [app aborted_after]. by rewrite IH, <- app_assoc.
Qed.

Lemma heeds_preorder : PreOrder (heeds cbs).
Proof.
  split.
  - intros s ab Hab. exists []. by rewrite app_nil_r.
  - intros s s' s'' H1 H2 ab Hab.
    destruct (H1 ab Hab) as (new1 & Hc1 & Hh1 & Ha1).
    destruct (H2 (aborted_after cbs (calls s.1) new1 ab) Ha1) as (new2 & Hc2 & Hh2 & Ha2).
    exists (new1 ++ new2). rewrite Hc1 in Hc2, Hh2, Ha2.
    split; [by rewrite Hc2, app_assoc |].
    split; [by rewrite heeds_abort_app, Hh1, Hh2 |].
    by rewrite aborted_after_app.
Qed.

#[local] Existing Instance heeds_preorder.

(** A step that makes no call and does not clear the signal. *)
Lemma heeds_silent {A} (m : M StreamLocals A) :
  (∀ s, calls (m s).1.1 = calls s.1
        ∧ (aborted s.1 = true → aborted (m s).1.1 = true)) →
  steps (heeds cbs) m.
Proof.
  intros Hm s ab Hab. destruct (Hm s) as [Hc Ha]. exists [].
  rewrite app_nil_r. split; [done |]. split; [done |]. cbn [aborted_after]. auto.
Qed.

(** A call, made when the signal is not set or to a callback that is
    not guarded. *)
Lemma heeds_call {A} (cb : option (Callback A)) (record : A → Call) (arg : A)
    (s : World * StreamLocals) :
  (∀ history, reaction cbs history (record arg) = react cb history arg) →
  aborted s.1 = false ∨ is_guarded (record arg) = false →
  heeds cbs s (call cb record arg s).1.
Proof.
  intros Hcb Hcase ab Hab. destruct s as [w l]. unfold call.
  destruct cb as [f|]; cbn [fst snd calls aborted] in *.
  - exists [record arg]. split; [done |].
    cbn [heeds_abort aborted_after]. rewrite Hcb. cbn [react].
    split.
    + rewrite andb_true_r. destruct Hcase as [Hw | ->]; [| by rewrite orb_true_r].
      destruct ab; [| done]. by rewrite Hab in Hw.
    + destruct ab; [rewrite Hab by done; done |].
      cbn [orb]. intros ->. by rewrite orb_true_r.
  - exists []. by rewrite app_nil_r.
Qed.

Lemma heeds_call_free {A} (cb : option (Callback A)) (record : A → Call) (arg : A) :
  (∀ history, reaction cbs history (record arg) = react cb history arg) →
  is_guarded (record arg) = false →
  steps (heeds cbs) (call cb record arg : M StreamLocals unit).
Proof. intros Hcb Hg s. apply heeds_call; auto. Qed.

(** [if (!abortSignal.aborted) cb?.(arg)] *)
Lemma heeds_call_guarded {A} (cb : option (Callback A)) (record : A → Call) (arg : A)
    (b : bool) :
  (∀ history, reaction cbs history (record arg) = react cb history arg) →
  steps (heeds cbs)
    (ab ← signal_aborted true; when (b && negb ab) (call cb record arg)
     : M StreamLocals unit).
Proof.
  intros Hcb s. rewrite bind_run. cbn [signal_aborted andb fst].
  destruct (aborted s.1) eqn:Hs, b; cbn [negb andb when];
    try (cbn [mret M_ret fst]; reflexivity).
  apply heeds_call; auto.
Qed.

Lemma heeds_modify (f : StreamLocals → StreamLocals) :
  steps (heeds cbs) (modify_local f).
Proof. apply heeds_silent. by intros [w l]. Qed.

Lemma heeds_suspend (b : bool) : steps (heeds cbs) (suspend b : M StreamLocals unit).
Proof. apply heeds_silent. intros [w l]. cbn [suspend fst snd calls aborted]. by split; [| intros ->]. Qed.

Lemma heeds_emit_model (m : value) : steps (heeds cbs) (emit_model cbs m).
Proof.
  unfold emit_model.
  apply steps_bind; [apply _ | apply steps_get_local; apply _ | intros l].
  apply steps_when; [apply _ |].
  apply steps_bind; [apply _ | apply heeds_modify | intros _].
  by apply heeds_call_free.
Qed.

Ltac heed :=
  repeat first
    [ apply heeds_preorder
    | match goal with |- ∀ _, _ => intros ? end
    | apply heeds_emit_model
    | apply heeds_call_guarded; done
    | apply (heeds_call_guarded _ _ _ true); done
    | apply steps_bind
    | apply steps_try_catch
    | apply steps_when
    | apply steps_if
    | apply steps_ret | apply steps_throw | apply steps_liftR
    | apply steps_get_local | apply steps_signal_aborted
    | apply heeds_suspend | apply heeds_modify
    | apply heeds_call_free; done ].

Lemma heeds_handle_event (data : jsstring) :
  steps (heeds cbs) (handle_event cbs true data).
Proof. unfold handle_event. heed. Qed.

Lemma heeds_process_line (line : jsstring) :
  steps (heeds cbs) (process_line cbs true line).
Proof.
  unfold process_line.
  repeat apply steps_if; try (apply steps_ret; apply _).
  apply steps_try_catch; [apply _ | apply heeds_handle_event | heed].
Qed.

Lemma heeds_for_lines (lines : list jsstring) :
  steps (heeds cbs) (for_lines cbs true lines).
Proof.
  induction lines as [|line rest IH]; simpl; [heed |].
  apply steps_bind; [apply _ | heed | intros ab].
  apply steps_if; [heed |].
  apply steps_bind; [apply _ | apply heeds_process_line | intros _; apply IH].
Qed.

Lemma heeds_read_loop fin rs d buffer :
  steps (heeds cbs) (read_loop cbs true fin rs d buffer).
Proof.
  revert d buffer. induction rs as [|[during bytes] rest IH]; intros d buffer; simpl.
  - heed. destruct (snd fin); heed.
  - apply steps_bind; [apply _ | heed | intros ab].
    apply steps_if; [heed |].
    apply steps_bind; [apply _ | heed | intros _].
    apply steps_bind; [apply _ | heed | intros ab'].
    apply steps_if; [heed |].
    destruct (decode d bytes) as [d' decoded].
    unfold pop.
    apply steps_bind; [apply _ | apply heeds_for_lines | intros _].
    apply steps_bind; [apply _ | heed | intros ab''].
    apply steps_if; [heed | apply IH].
Qed.

(** [if (abortSignal.aborted) return; onComplete?.(...)] *)
Lemma heeds_complete :
  steps (heeds cbs)
    (ab ← signal_aborted true;
     if (ab : bool) then mret tt
     else
       l ← get_local;
       call (onComplete cbs)
            (λ a, OnComplete a.1.1 a.1.2 a.2)
            (aggregatedContent l, nonempty (fullReasoningContent l), lastTimings l)).
Proof.
  intros s. rewrite guard_run. cbn [andb].
  destruct (aborted s.1) eqn:Hs; [reflexivity |].
  rewrite bind_run. cbn [get_local]. apply heeds_call; auto.
Qed.

Lemma heeds_handleStreamResponse (response : Response) :
  steps (heeds cbs) (handleStreamResponse response cbs true).
Proof.
  unfold handleStreamResponse.
  destruct (body response) as [stream|]; [| heed].
  apply steps_try_catch; [apply _ | | intros error; heed].
  apply steps_bind; [apply _ | apply heeds_read_loop | intros _; apply heeds_complete].
Qed.

Lemma heeds_abort_split (history pre post : list Call) (c : Call) (ab : bool) :
  heeds_abort cbs history (pre ++ c :: post) ab = true →
  aborted_after cbs history pre ab = true →
  is_guarded c = false.
Proof.
  rewrite heeds_abort_app. cbn [heeds_abort].
  intros (_ & (H & _)%andb_prop)%andb_prop Hab. rewrite Hab in H.
  by destruct (is_guarded c).
Qed.

(** X3. With a signal passed, the stream handler makes no guarded call
    after the request is aborted: in the calls a run adds, a call that
    comes after a callback has aborted the request (or in a run that
    started aborted) is none of [onChunk], [onReasoningChunk],
    [onToolCallChunk] and [onComplete]; only [onModel], [onTimings] and
    [onError] are invoked without a look at the signal. *)
Theorem no_text_after_abort (response : Response) (s : World * StreamLocals) :
  ∃ new : list Call,
    calls (handleStreamResponse response cbs true s).1.1 = calls s.1 ++ new
    ∧ ∀ pre c post,
        new = pre ++ c :: post →
        aborted_after cbs (calls s.1) pre (aborted s.1) = true →
        is_guarded c = false.
Proof.
  destruct (heeds_handleStreamResponse response s (aborted s.1)) as (new & Hc & Hh & _);
    [done |].
  exists new. split; [done |]. intros pre c post -> Hab.
  by apply (heeds_abort_split (calls s.1) pre post c (aborted s.1)).
Qed.

End Abort.

(** ** Failures and their reports *)

Section Calm.
Context `{RT : Runtime}.
Context (cbs : Callbacks) (signal : bool).
Context (Hwb : well_behaved cbs).

Lemma calm_preorder : PreOrder calm.
Proof. split; unfold calm; [done | intros ? ? ? H1 H2; by rewrite H2]. Qed.

#[local] Existing Instance calm_preorder.

Lemma calm_call {A} (cb : option (Callback A)) (record : A → Call) (arg : A) :
  quiet cb → steps calm (call cb record arg : M StreamLocals unit).
Proof. intros Hq [w l]. by rewrite call_quiet. Qed.

Lemma calm_modify (f : StreamLocals → StreamLocals) : steps calm (modify_local f).
Proof. by intros [w l]. Qed.

Ltac stay_calm :=
  repeat first
    [ apply calm_preorder
    | match goal with |- ∀ _, _ => intros ? end
    | apply steps_bind
    | apply steps_try_catch
    | apply steps_when
    | apply steps_if
    | apply steps_ret | apply steps_throw | apply steps_liftR
    | apply steps_get_local | apply steps_signal_aborted
    | apply calm_modify
    | apply calm_call; apply Hwb ].

Lemma calm_handle_event (data : jsstring) : steps calm (handle_event cbs signal data).
Proof. unfold handle_event, emit_model. stay_calm. Qed.

Lemma calm_process_line (line : jsstring) : steps calm (process_line cbs signal line).
Proof.
  unfold process_line.
  repeat apply steps_if; try (apply steps_ret; apply _).
  apply steps_try_catch; [apply _ | apply calm_handle_event | stay_calm].
Qed.

Lemma calm_for_lines (lines : list jsstring) : steps calm (for_lines cbs signal lines).
Proof.
  induction lines as [|line rest IH]; simpl; [stay_calm |].
  apply steps_bind; [apply _ | stay_calm | intros ab].
  apply steps_if; [stay_calm |].
  apply steps_bind; [apply _ | apply calm_process_line | intros _; apply IH].
Qed.

(** A stream whose reads come undisturbed to a caller that leaves the
    signal alone, ending in a read that rejects: the events before it
    are served, then the handler reports the rejection and rethrows. *)
Lemma handleStreamResponse_rejected (response : Response) (chunks : list (list N))
    (during : bool) (t : thrown) (w : World) (l : StreamLocals) :
  body response = Some (mkStream (undisturbed <$> chunks) (during, Failed t)) →
  aborted w = false →
  ∃ (new : list Call) (l' : StreamLocals),
    handleStreamResponse response cbs signal (w, l)
    = ((mkWorld (calls w ++ new
                 ++ invocation (onError cbs) (OnError (as_error t (js "Stream error"))))
                during, l'),
       Throw (ThrowError (as_error t (js "Stream error"))))
    ∧ Forall (λ c, is_progress c = true) new.
Proof.
  intros Hbody Hw. unfold handleStreamResponse, try_catch. rewrite Hbody.
  cbn [reads finish]. rewrite bind_run, read_loop_fed, bind_run.
  pose proof (for_lines_returns cbs signal (fed_lines chunks decoder_new []) (w, l)) as Hres.
  pose proof (calm_for_lines (fed_lines chunks decoder_new []) (w, l)) as Hcalm.
  destruct (advances_for_lines cbs signal (fed_lines chunks decoder_new []) (w, l))
    as (_ & new & Hcalls & Hnew & _).
  destruct (for_lines _ _ _ _) as [[w1 l1] r]. unfold calm in Hcalm.
  cbn [fst snd] in *. subst r.
  cbn [read_loop]. rewrite guard_run. cbn [fst]. rewrite Hcalm, Hw, andb_false_r.
  rewrite bind_run. cbn [suspend fst snd throw].
  rewrite bind_run, call_quiet by apply Hwb.
  cbn [calls aborted throw]. rewrite Hcalm, Hw, Hcalls, <- app_assoc.
  by exists new, l1.
Qed.

End Calm.

Section Reports.
Context `{RT : Runtime}.

(** X4. A streamed response whose reads come undisturbed and end in a
    read that rejects, for a caller whose callbacks return normally and
    leave the signal alone: when what the read rejects with is not an
    [AbortError], [onError] is invoked twice after the progress
    callbacks, first by the stream handler with the error (a
    [Stream error] for a thrown non-error), then by [sendMessage] with
    the classification of that error, which is what [sendMessage]
    rejects with. *)
Theorem stream_failure_is_reported_twice (messages : list Message) (options : Options)
    (signal : bool) (fetch : gmap jsstring BodyValue → result Response)
    (response : Response) (chunks : list (list N)) (during : bool) (t : thrown)
    (w : World) :
  default false (stream options) = true →
  fetch (JSON_stringify (requestBody options (convertMessagesToInput messages)))
  = Ok response →
  ok response = true →
  body response = Some (mkStream (undisturbed <$> chunks) (during, Failed t)) →
  well_behaved (callbacks options) →
  aborted w = false →
  let err := as_error t (js "Stream error") in
  isAbortError (ThrowError err) = false →
  ∃ new : list Call,
    sendMessage messages options signal fetch (w, tt)
    = ((mkWorld (calls w ++ new
                 ++ invocation (onError (callbacks options)) (OnError err)
                 ++ invocation (onError (callbacks options))
                      (OnError (userFriendlyError (ThrowError err))))
                during, tt),
       Throw (ThrowError (userFriendlyError (ThrowError err))))
    ∧ Forall (λ c, is_progress c = true) new.
Proof.
  intros Hstream Hfetch Hok Hbody Hwb Hw err Hname.
  rewrite (sendMessage_stream _ _ _ _ response) by done.
  destruct (handleStreamResponse_rejected (callbacks options) signal Hwb response chunks
              during t w stream_start Hbody Hw) as (new & l' & -> & Hnew).
  fold err. rewrite Hname. rewrite bind_run, call_quiet by apply Hwb.
  cbn [fst snd calls aborted throw]. exists new. by rewrite <- !app_assoc.
Qed.

(** X5. A streamed response whose reads come undisturbed and end in a
    read that rejects with an [AbortError], for a caller whose callbacks
    return normally and leave the signal alone: [sendMessage] resolves
    with [undefined], but the stream handler has invoked [onError] with
    the [AbortError], once, after the progress callbacks; [onComplete]
    is not invoked. *)
Theorem aborted_read_is_reported (messages : list Message) (options : Options)
    (signal : bool) (fetch : gmap jsstring BodyValue → result Response)
    (response : Response) (chunks : list (list N)) (during : bool) (e : JSError)
    (w : World) :
  default false (stream options) = true →
  fetch (JSON_stringify (requestBody options (convertMessagesToInput messages)))
  = Ok response →
  ok response = true →
  body response = Some (mkStream (undisturbed <$> chunks) (during, Failed (ThrowError e))) →
  well_behaved (callbacks options) →
  aborted w = false →
  name e = js "AbortError" →
  ∃ new : list Call,
    sendMessage messages options signal fetch (w, tt)
    = ((mkWorld (calls w ++ new
                 ++ invocation (onError (callbacks options)) (OnError e))
                during, tt),
       Ok None)
    ∧ Forall (λ c, is_progress c = true) new.
Proof.
  intros Hstream Hfetch Hok Hbody Hwb Hw Hname.
  rewrite (sendMessage_stream _ _ _ _ response) by done.
  destruct (handleStreamResponse_rejected (callbacks options) signal Hwb response chunks
              during (ThrowError e) w stream_start Hbody Hw) as (new & l' & -> & Hnew).
  cbn [as_error isAbortError]. rewrite Hname.
  change (str_eqb (js "AbortError") (js "AbortError")) with true. cbn [fst].
  by exists new.
Qed.

(** X6. A successful response without a body, when streaming was asked
    for: the stream handler throws [No response body] without a
    callback, and [sendMessage] reports that error to [onError] once and
    rejects with it. *)
Theorem missing_body_is_reported_once (messages : list Message) (options : Options)
    (signal : bool) (fetch : gmap jsstring BodyValue → result Response)
    (response : Response) (w : World) :
  default false (stream options) = true →
  fetch (JSON_stringify (requestBody options (convertMessagesToInput messages)))
  = Ok response →
  ok response = true →
  body response = None →
  quiet (onError (callbacks options)) →
  sendMessage messages options signal fetch (w, tt)
  = ((mkWorld (calls w ++ invocation (onError (callbacks options))
                             (OnError (newError (js "No response body"))))
              (aborted w), tt),
     Throw (ThrowError (newError (js "No response body")))).
Proof.
  intros Hstream Hfetch Hok Hbody Hq.
  rewrite (sendMessage_stream _ _ _ _ response) by done.
  unfold handleStreamResponse. rewrite Hbody. cbn [throw fst].
  change (isAbortError (ThrowError (newError (js "No response body")))) with false.
  change (userFriendlyError (ThrowError (newError (js "No response body"))))
    with (newError (js "No response body")).
  cbv iota. rewrite bind_run, call_quiet by done. done.
Qed.

Lemma parseErrorResponse_name (response : Response) :
  name (parseErrorResponse response) = js "ServerError"
  ∨ name (parseErrorResponse response) = js "HttpError".
Proof.
  unfold parseErrorResponse.
  destruct (text response ≫= _) as [e|t] eqn:H; [| by right].
  destruct (text response) as [errorText|]; [| discriminate H]. cbn [mbind result_bind] in H.
  destruct (parseJSON errorText) as [errorData|]; [| discriminate H].
  cbn [mbind result_bind] in H.
  destruct (getp errorData (js "error")) as [error|]; [| discriminate H].
  cbn [mbind result_bind] in H.
  destruct (toString _) as [message|]; [| discriminate H].
  cbn [mbind result_bind mret result_ret] in H. injection H as <-. cbn [name].
  destruct (bool_decide _); auto.
Qed.

Lemma parseErrorResponse_not_abort (response : Response) :
  isAbortError (ThrowError (parseErrorResponse response)) = false.
Proof.
  cbn [isAbortError]. by destruct (parseErrorResponse_name response) as [-> | ->].
Qed.

(** X7. A response that is not [ok]: [onError] is invoked twice, with
    the error [parseErrorResponse] makes of the response and then with
    the classification of that error, and [sendMessage] rejects with the
    latter; the body is not handled. *)
Theorem http_error_is_reported_twice (messages : list Message) (options : Options)
    (signal : bool) (fetch : gmap jsstring BodyValue → result Response)
    (response : Response) (w : World) :
  fetch (JSON_stringify (requestBody options (convertMessagesToInput messages)))
  = Ok response →
  ok response = false →
  quiet (onError (callbacks options)) →
  let error := parseErrorResponse response in
  sendMessage messages options signal fetch (w, tt)
  = ((mkWorld (calls w
               ++ invocation (onError (callbacks options)) (OnError error)
               ++ invocation (onError (callbacks options))
                    (OnError (userFriendlyError (ThrowError error))))
              (aborted w), tt),
     Throw (ThrowError (userFriendlyError (ThrowError error)))).
Proof.
  intros Hfetch Hok Hq error. subst error. unfold sendMessage, try_catch.
  rewrite bind_run, Hfetch. rewrite bind_run. cbn [liftR]. rewrite Hok. cbn [negb].
  rewrite bind_run, call_quiet by done. cbn [throw].
  rewrite parseErrorResponse_not_abort.
  rewrite bind_run, call_quiet by done. cbn [throw calls aborted].
  by rewrite <- app_assoc.
Qed.

(** X8. Without streaming, a successful response whose body cannot be
    read ([response.text()] rejects) or is not JSON: [onError] is
    invoked once, with the error itself ([Parse error] for a rejection
    that is no error, the [SyntaxError] for text that does not parse),
    and [sendMessage] rejects with that same error: the classification
    of the [catch] is not applied, and an [AbortError] is not swallowed. *)
Theorem unreadable_body_is_reported_as_is (messages : list Message) (options : Options)
    (signal : bool) (fetch : gmap jsstring BodyValue → result Response)
    (response : Response) (err : JSError) (w : World) :
  default false (stream options) = false →
  fetch (JSON_stringify (requestBody options (convertMessagesToInput messages)))
  = Ok response →
  ok response = true →
  quiet (onError (callbacks options)) →
  (∃ t, text response = Throw t ∧ err = as_error t (js "Parse error"))
  ∨ (∃ body, text response = Ok body ∧ blank body = false
             ∧ JSON_parse body = None
             ∧ err = mkError (js "SyntaxError") (fault_message (BadJSON body))) →
  sendMessage messages options signal fetch (w, tt)
  = ((mkWorld (calls w ++ invocation (onError (callbacks options)) (OnError err))
              (aborted w), tt),
     Throw (ThrowError err)).
Proof.
  intros Hstream Hfetch Hok Hq Hcase.
  rewrite (sendMessage_nonstream _ _ _ _ response) by done.
  rewrite bind_run. unfold handleNonStreamResponse, try_catch.
  destruct Hcase as [(t & Htext & ->) | (body & Htext & Hblank & Hparse & ->)];
    rewrite bind_run, Htext; cbn [liftR].
  - rewrite bind_run, call_quiet by done. done.
  - rewrite Hblank, bind_run. unfold parseJSON. rewrite Hparse. cbn [liftR fault as_error].
    rewrite bind_run, call_quiet by done. done.
Qed.

(** What the classification puts in the place of an error is not
    classified again. *)
Lemma userFriendlyError_cases (t : thrown) :
  (∃ e, t = ThrowError e ∧ userFriendlyError t = e
        ∧ (str_eqb (name e) (js "TypeError") && includes (message e) (js "fetch")) = false
        ∧ includes (message e) (js "ECONNREFUSED") = false
        ∧ includes (message e) (js "ETIMEDOUT") = false)
  ∨ userFriendlyError t ∈
      [ mkError (js "NetworkError")
          (js "Unable to connect to server - please check if the server is running");
        mkError (js "NetworkError") (js "Connection refused - server may be offline");
        mkError (js "TimeoutError")
          (js "Request timed out - the server took too long to respond");
        newError (js "Unknown error occurred while sending message") ].
Proof.
  destruct t as [e|v]; cbn [userFriendlyError].
  - destruct (str_eqb _ _ && includes _ _) eqn:H1; [right; set_solver |].
    destruct (includes _ (js "ECONNREFUSED")) eqn:H2; [right; set_solver |].
    destruct (includes _ (js "ETIMEDOUT")) eqn:H3; [right; set_solver |].
    left. by exists e.
  - right. set_solver.
Qed.

Lemma userFriendlyError_not_abort (t : thrown) :
  isAbortError t = false → isAbortError (ThrowError (userFriendlyError t)) = false.
Proof.
  intros Ht.
  destruct (userFriendlyError_cases t) as [(e & -> & He & _) | H].
  - by rewrite He.
  - repeat (apply elem_of_cons in H as [-> | H]); [| | | | by apply elem_of_nil in H];
      by vm_compute.
Qed.

(** X9. When streaming was asked for and [onError] returns normally,
    every rejection of [sendMessage] is an [Error] that is not an
    [AbortError], and it was handed to [onError] in the last callback
    made. *)
Theorem streaming_rejections_are_reported (messages : list Message) (options : Options)
    (signal : bool) (fetch : gmap jsstring BodyValue → result Response)
    (w w' : World) (t : thrown) :
  default false (stream options) = true →
  quiet (onError (callbacks options)) →
  sendMessage messages options signal fetch (w, tt) = ((w', tt), Throw t) →
  ∃ (pre : list Call) (e : JSError),
    t = ThrowError e
    ∧ calls w' = pre ++ invocation (onError (callbacks options)) (OnError e)
    ∧ isAbortError t = false.
Proof.
  intros Hstream Hq. unfold sendMessage.
  rewrite bind_run.
  set (attempt := try_catch _ _).
  assert (Hattempt : ∀ s' r, attempt (w, tt) = (s', r) →
            match r with
            | Ok (Value _) => True
            | Ok (Promise _) => False
            | Throw t => ∃ pre e, t = ThrowError e
                ∧ calls s'.1 = pre ++ invocation (onError (callbacks options)) (OnError e)
                ∧ isAbortError t = false
            end).
  { intros s' r. subst attempt. unfold try_catch.
    assert (Hcatch : ∀ s0 error s' r,
              (if isAbortError error then mret (Value None)
               else call (onError (callbacks options)) OnError (userFriendlyError error);;
                    throw (ThrowError (userFriendlyError error))) s0
              = ((s', r) : World * unit * result Returned) →
              match r with
              | Ok (Value _) => True
              | Ok (Promise _) => False
              | Throw t => ∃ pre e, t = ThrowError e
                  ∧ calls s'.1 = pre ++ invocation (onError (callbacks options)) (OnError e)
                  ∧ isAbortError t = false
              end).
    { intros [w0 []] error s0' r0. destruct (isAbortError error) eqn:Hab.
      - by intros [= <- <-].
      - rewrite bind_run, call_quiet by done. cbn [throw]. intros [= <- <-].
        eexists _, _. split; [done |]. split; [done |].
        by apply userFriendlyError_not_abort. }
    rewrite bind_run. destruct (fetch _) as [response|error]; cbn [liftR].
    2: { apply Hcatch. }
    destruct (ok response); cbn [negb].
    - rewrite Hstream. rewrite bind_run. unfold with_locals. cbn [fst snd].
      destruct (handleStreamResponse _ _ _ _) as [[w1 l1] [[]|error]]; cbn [fst snd].
      + by intros [= <- <-].
      + apply Hcatch.
    - rewrite bind_run. 
      destruct (call _ _ _ _) as [[w1 []] [[]|error]]; cbn [throw]; apply Hcatch. }
  destruct (attempt (w, tt)) as [[w1 []] r1].
  specialize (Hattempt _ _ eq_refl).
  destruct r1 as [[v|response]|t1]; [| done |].
  - by intros [= _ ?].
  - by intros [= <- <-].
Qed.

(** X10. The classification of the [catch] is stable: classifying the
    error it has produced gives that error again. *)
Theorem userFriendlyError_is_stable (t : thrown) :
  userFriendlyError (ThrowError (userFriendlyError t)) = userFriendlyError t.
Proof.
  destruct (userFriendlyError_cases t) as [(e & -> & He & H1 & H2 & H3) | H].
  - rewrite He. cbn [userFriendlyError]. by rewrite H1, H2, H3.
  - repeat (apply elem_of_cons in H as [-> | H]); [| | | | by apply elem_of_nil in H];
      by vm_compute.
Qed.

End Reports.

(** ** The text of a stream *)

Section Beside.
Context `{RT : Runtime}.
Context (cbs : Callbacks) (signal : bool).

Lemma beside_text_preorder : PreOrder beside_text.
Proof.
  split.
  - intros s. exists []. by rewrite app_nil_r.
  - intros s s' s'' (new1 & Hc1 & Hp1 & Ha1) (new2 & Hc2 & Hp2 & Ha2).
    exists (new1 ++ new2). split; [by rewrite Hc2, Hc1, app_assoc |].
    split; [by apply Forall_app | by rewrite Ha2].
Qed.

#[local] Existing Instance beside_text_preorder.

(** A bound value is what the lifted result holds. *)
Lemma steps_bind_liftR {L A B} (R : relation (World * L)) `{!PreOrder R}
    (r : result A) (f : A → M L B) :
  (∀ a, r = Ok a → steps R (f a)) → steps R (liftR r ≫= f).
Proof.
  intros Hf s. rewrite bind_run. cbn [liftR].
  destruct r as [a|t]; [by apply Hf | reflexivity].
Qed.

Lemma beside_text_call {A} (cb : option (Callback A)) (record : A → Call) (arg : A) :
  is_progress (record arg) = true →
  is_chunk (record arg) = false →
  steps beside_text (call cb record arg : M StreamLocals unit).
Proof.
  intros Hp Hc [w l].
  destruct (call_run cb record arg w l) as (ab & res & -> & _).
  exists (invocation cb (record arg)). split; [done |]. split; [| done].
  unfold invocation. destruct cb; by repeat constructor.
Qed.

Lemma beside_text_modify (f : StreamLocals → StreamLocals) :
  (∀ l, aggregatedContent (f l) = aggregatedContent l) →
  steps beside_text (modify_local f).
Proof.
  intros Hf [w l]. exists []. cbn [modify_local fst snd]. by rewrite app_nil_r.
Qed.

Lemma beside_text_emit_model (m : value) : steps beside_text (emit_model cbs m).
Proof.
  unfold emit_model.
  apply steps_bind; [apply _ | apply steps_get_local; apply _ | intros l].
  apply steps_when; [apply _ |].
  apply steps_bind; [apply _ | by apply beside_text_modify | intros _].
  by apply beside_text_call.
Qed.

Ltac beside :=
  repeat first
    [ apply beside_text_preorder
    | match goal with |- ∀ _, _ => intros ? end
    | apply beside_text_emit_model
    | apply steps_bind
    | apply steps_try_catch
    | apply steps_when
    | apply steps_if
    | apply steps_ret | apply steps_throw | apply steps_liftR
    | apply steps_get_local | apply steps_signal_aborted
    | apply beside_text_call; done
    | apply beside_text_modify; done ].

(** An event that is no text delta. *)
Lemma beside_text_handle_event (data : jsstring) (e : value) :
  JSON_parse data = Some e →
  is_str (getp_opt e (js "type")) (js "response.output_text.delta") = false →
  steps beside_text (handle_event cbs signal data).
Proof.
  intros Hparse Htype. unfold handle_event, parseJSON. rewrite Hparse.
  apply steps_bind_liftR; [apply _ |]. intros parsed [= <-].
  apply steps_bind_liftR; [apply _ |]. intros eventType HeventType.
  assert (is_str eventType (js "response.output_text.delta") = false) as ->.
  { destruct e; try discriminate HeventType; injection HeventType as <-; done. }
  beside.
Qed.

Lemma is_str_inj (v : value) (a b : jsstring) :
  is_str v a = true → a ≠ b → is_str v b = false.
Proof.
  destruct v; try done. cbn [is_str]. unfold str_eqb.
  intros ->%bool_decide_eq_true Hne. by apply bool_decide_eq_false.
Qed.

(** A text delta, for a caller whose callbacks return normally and
    leave the signal alone. A delta that does not convert to a string
    makes the event fail before its text is added or handed on. *)
Lemma handle_event_text (data : jsstring) (e : value) (w : World) (l : StreamLocals) :
  well_behaved cbs →
  aborted w = false →
  JSON_parse data = Some e →
  is_str (getp_opt e (js "type")) (js "response.output_text.delta") = true →
  let delta := or_else (getp_opt e (js "delta")) (JStr []) in
  ∃ (models : list Call) (l' : StreamLocals) (r : result unit),
    handle_event cbs signal data (w, l)
    = ((mkWorld (calls w ++ models
                 ++ (if truthy delta && convertible delta
                     then invocation (onChunk cbs) (OnChunk delta) else []))
                false, l'), r)
    ∧ Forall (λ c, is_model c = true) models
    ∧ aggregatedContent l'
      = aggregatedContent l
        ++ (if truthy delta && convertible delta then string_of delta else []).
Proof.
  intros (Hchunk & _ & _ & _ & _ & Hmodel & _) Hab Hparse Htype delta.
  assert (Hobj : nullish e = false) by (by destruct e).
  unfold handle_event, parseJSON. rewrite Hparse.
  run. rewrite !getp_defined by done. run. rewrite Htype.
  rewrite !(is_str_inj _ _ _ Htype) by (intros H; vm_compute in H; discriminate H).
  run. rewrite emit_model_quiet by done. fold delta.
  assert (Hw : w = mkWorld (calls w) false) by (destruct w; cbn in *; by subst).
  assert (Hmodels : Forall (λ c, is_model c = true)
                      (invocation (onModel cbs) (OnModel (getp_opt e (js "model"))))).
  { unfold invocation. destruct (onModel cbs); by repeat constructor. }
  destruct (truthy _ && negb (modelEmitted l)); run;
    rewrite ?getp_defined by done; run; fold delta;
    destruct (truthy delta); run; cbn [andb];
    rewrite ?(toString_convertible delta); destruct (convertible delta);
    run; rewrite ?Hab, ?andb_false_r; run;
    rewrite ?call_quiet by done; run; cbn [calls aborted]; rewrite ?Hab.
  - exists (invocation (onModel cbs) (OnModel (getp_opt e (js "model")))),
           (add_content (string_of delta) (set_modelEmitted l)), (Ok tt).
    rewrite <- app_assoc. split; [reflexivity |]. by split.
  - exists (invocation (onModel cbs) (OnModel (getp_opt e (js "model")))),
           (set_modelEmitted l), (fault NoPrimitive).
    rewrite !app_nil_r. split; [reflexivity |]. by split.
  - exists (invocation (onModel cbs) (OnModel (getp_opt e (js "model")))),
           (set_modelEmitted l), (Ok tt).
    rewrite !app_nil_r. split; [reflexivity |]. by split.
  - exists (invocation (onModel cbs) (OnModel (getp_opt e (js "model")))),
           (set_modelEmitted l), (Ok tt).
    rewrite !app_nil_r. split; [reflexivity |]. by split.
  - exists [], (add_content (string_of delta) l), (Ok tt). split; [reflexivity |].
    split; [constructor | done].
  - exists [], l, (fault NoPrimitive). rewrite !app_nil_r. split; [by rewrite <- Hw |].
    split; [constructor | done].
  - exists [], l, (Ok tt). rewrite !app_nil_r. split; [by rewrite <- Hw |].
    split; [constructor | done].
  - exists [], l, (Ok tt). rewrite !app_nil_r. split; [by rewrite <- Hw |].
    split; [constructor | done].
Qed.

End Beside.

Section Delivery.
Context `{RT : Runtime}.
Context (cbs : Callbacks) (signal : bool).
Context (Hwb : well_behaved cbs).

Lemma world_eta (w : World) : aborted w = false → mkWorld (calls w) false = w.
Proof. destruct w. cbn. by intros ->. Qed.

(** One line, for a caller whose callbacks return normally and leave
    the signal alone: the chunk is the text delta of the line, if it has
    one. *)
Lemma process_line_text (line : jsstring) (w : World) (l : StreamLocals) :
  aborted w = false →
  ∃ (new : list Call) (l' : StreamLocals),
    process_line cbs signal line (w, l) = ((mkWorld (calls w ++ new) false, l'), Ok tt)
    ∧ Forall (λ c, is_progress c = true) new
    ∧ filter is_chunk new
      = from_option (λ d, invocation (onChunk cbs) (OnChunk d)) [] (text_delta line)
    ∧ aggregatedContent l'
      = aggregatedContent l ++ from_option string_of [] (text_delta line).
Proof.
  intros Hab. unfold text_delta.
  destruct (ignored line) eqn:Hign.
  { rewrite process_line_ignored by done. exists [], l. cbn [from_option].
    rewrite !app_nil_r. split; [by rewrite (world_eta w Hab) |]. by repeat split. }
  unfold ignored in Hign. unfold process_line.
  destruct (startsWith line (js "event: ")); [done |].
  destruct (startsWith line (js "data: ")); [| done].
  cbn [orb negb] in Hign. rewrite Hign. unfold try_catch.
  destruct (JSON_parse (slice 6 line)) as [e|] eqn:Hparse.
  2: { unfold handle_event, parseJSON. rewrite Hparse. run.
       exists [], l. cbn [from_option]. rewrite !app_nil_r.
       split; [by rewrite (world_eta w Hab) |]. by repeat split. }
  destruct (is_str (getp_opt e (js "type")) (js "response.output_text.delta")) eqn:Htype.
  - destruct (handle_event_text cbs signal (slice 6 line) e w l Hwb Hab Hparse Htype)
      as (models & l' & r & -> & Hmodels & Hagg).
    cbn zeta in *.
    exists (models ++ (if truthy (or_else (getp_opt e (js "delta")) (JStr []))
                          && convertible (or_else (getp_opt e (js "delta")) (JStr []))
                       then invocation (onChunk cbs)
                              (OnChunk (or_else (getp_opt e (js "delta")) (JStr [])))
                       else [])), l'.
    split; [by destruct r as [[]|t] |].
    split.
    { apply Forall_app. split.
      - eapply Forall_impl; [exact Hmodels |]. by intros [].
      - destruct (truthy _ && convertible _); [| constructor].
        unfold invocation. destruct (onChunk cbs); by repeat constructor. }
    rewrite filter_app, (filter_models is_chunk models) by (done || by intros []).
    destruct (truthy _ && convertible _); cbn [from_option app]; [| done].
    split; [| done]. unfold invocation. by destruct (onChunk cbs).
  - pose proof (calm_handle_event cbs signal Hwb (slice 6 line) (w, l)) as Hcalm.
    destruct (beside_text_handle_event cbs signal (slice 6 line) e Hparse Htype (w, l))
      as (new & Hcalls & Hnew & Hagg).
    unfold calm in Hcalm.
    destruct (handle_event cbs signal (slice 6 line) (w, l)) as [[w' l'] r].
    cbn [fst snd] in *.
    assert (Hw' : w' = mkWorld (calls w ++ new) false).
    { destruct w' as [cs ab]. cbn [calls aborted] in *. by rewrite Hcalm, Hab, Hcalls. }
    exists new, l'. cbn [from_option]. rewrite app_nil_r.
    split; [destruct r as [[]|t]; by rewrite Hw' |].
    split; [eapply Forall_impl; [exact Hnew |]; by intros c [? ?] |].
    split; [| done].
    clear -Hnew. induction Hnew as [|c cs [_ Hc] _ IH]; [done |].
    rewrite filter_cons_False; [done |]. rewrite Hc. auto.
Qed.

Lemma for_lines_text (lines : list jsstring) (w : World) (l : StreamLocals) :
  aborted w = false →
  ∃ (new : list Call) (l' : StreamLocals),
    for_lines cbs signal lines (w, l) = ((mkWorld (calls w ++ new) false, l'), Ok tt)
    ∧ Forall (λ c, is_progress c = true) new
    ∧ filter is_chunk new
      = omap text_delta lines ≫= (λ d, invocation (onChunk cbs) (OnChunk d))
    ∧ aggregatedContent l' = aggregatedContent l ++ (omap text_delta lines ≫= string_of).
Proof.
  revert w l. induction lines as [|line rest IH]; intros w l Hab.
  - exists [], l. cbn [for_lines omap list_omap]. rewrite !app_nil_r.
    split; [by rewrite (world_eta w Hab) |]. by repeat split.
  - rewrite for_lines_cons. cbn [fst]. rewrite Hab, andb_false_r, bind_run.
    destruct (process_line_text line w l Hab) as (new1 & l1 & -> & Hp1 & Hc1 & Ha1).
    destruct (IH (mkWorld (calls w ++ new1) false) l1 eq_refl)
      as (new2 & l2 & -> & Hp2 & Hc2 & Ha2).
    cbn [calls] in *. exists (new1 ++ new2), l2.
    split; [by rewrite app_assoc |].
    split; [by apply Forall_app |].
    rewrite filter_app, Hc1, Hc2, Ha2, Ha1. cbn [omap list_omap].
    destruct (text_delta line) as [d|]; cbn [from_option].
    + rewrite !bind_cons. by rewrite <- app_assoc.
    + by rewrite app_nil_r.
Qed.

(** X22. The chunks of a stream are its text deltas, in order. For a
    caller whose callbacks return normally and leave the signal alone,
    and a stream that ends normally, however it is cut into reads: the
    handler returns; [onChunk] is invoked once for every line that is a
    text delta event with a truthy [delta] that converts to a string
    (any parsed value but an object with a [toString] property of its
    own, or an array that holds one), with that [delta], in the order of
    the lines, and for no other line; [onComplete] is invoked once,
    last, with the concatenation of the strings these deltas convert
    to; [onError] is not invoked. The lines are those of the decoded
    payload that end in a newline. *)
Theorem text_deltas_are_delivered_in_order (response : Response)
    (chunks : list (list N)) (w : World) :
  body response = Some (mkStream (undisturbed <$> chunks) (false, Done)) →
  aborted w = false →
  let lines := removelast (split_newline (decode decoder_new (concat chunks)).2) in
  let deltas := omap text_delta lines in
  ∃ (new : list Call) (l' : StreamLocals),
    handleStreamResponse response cbs signal (w, stream_start)
    = ((mkWorld (calls w ++ new
                 ++ invocation (onComplete cbs)
                      (OnComplete (deltas ≫= string_of)
                         (nonempty (fullReasoningContent l')) (lastTimings l')))
                false, l'), Ok tt)
    ∧ Forall (λ c, is_progress c = true) new
    ∧ filter is_chunk new = deltas ≫= (λ d, invocation (onChunk cbs) (OnChunk d)).
Proof.
  intros Hbody Hab lines deltas. unfold handleStreamResponse, try_catch.
  rewrite Hbody. cbn [reads finish].
  rewrite bind_run, read_loop_fed, fed_lines_whole. fold lines. rewrite bind_run.
  destruct (for_lines_text lines w stream_start Hab) as (new & l' & -> & Hp & Hc & Ha).
  cbn [read_loop]. rewrite guard_run. cbn [fst aborted]. rewrite andb_false_r.
  rewrite bind_run, suspend_false. cbn [snd mret M_ret].
  rewrite guard_run. cbn [fst aborted]. rewrite andb_false_r.
  rewrite bind_run. cbn [get_local snd].
  rewrite call_quiet by apply Hwb. cbn [calls aborted fst snd].
  exists new, l'. rewrite Ha. cbn [stream_start aggregatedContent app].
  by rewrite <- app_assoc.
Qed.

End Delivery.

(** ** Events and bodies *)

Section Texts.
Context `{RT : Runtime}.

(** X11. A [data:] line whose payload parses, names no model (none, or
    a falsy one), is no completion event, and either has no [delta]
    (none, or a falsy one) or is no delta event: no callback is invoked
    and no variable of the handler changes. A payload that is [null], a
    number, a string or an array is such a payload. *)
Theorem idle_event_is_a_no_op (cbs : Callbacks) (signal : bool) (data : jsstring)
    (e : value) (s : World * StreamLocals) :
  JSON_parse data = Some e →
  truthy (getp_opt e (js "model")) = false →
  Forall (λ ty, is_str (getp_opt e (js "type")) ty = false) final_events →
  truthy (getp_opt e (js "delta")) = false
  ∨ Forall (λ ty, is_str (getp_opt e (js "type")) ty = false) delta_events →
  process_line cbs signal (js "data: " ++ data) s = (s, Ok tt).
Proof.
  intros Hparse Hmodel Hfinal Hdelta. rewrite process_line_data.
  destruct (str_eqb data (js "[DONE]")); [done |].
  unfold try_catch, handle_event, parseJSON. rewrite Hparse.
  destruct (nullish e) eqn:Hnull.
  { destruct e; try discriminate Hnull; by run. }
  destruct s as [w l].
  run. rewrite !getp_defined by done. run.
  unfold emit_model at 1. run. rewrite Hmodel. run.
  apply Forall_cons in Hfinal as [Hf1 Hfinal]. apply Forall_cons in Hfinal as [Hf2 _].
  rewrite Hf1, Hf2. run.
  assert (Hor : truthy (getp_opt e (js "delta")) = false →
                truthy (or_else (getp_opt e (js "delta")) (JStr [])) = false).
  { intros H. unfold or_else. by rewrite H. }
  destruct Hdelta as [Hd | Hd].
  - specialize (Hor Hd).
    destruct (is_str _ (js "response.output_text.delta")),
             (is_str _ (js "response.reasoning_summary_text.delta")),
             (is_str _ (js "response.function_call_arguments.delta"));
      repeat (progress (rewrite ?Hor; run)); done.
  - apply Forall_cons in Hd as [Hd1 Hd]. apply Forall_cons in Hd as [Hd2 Hd].
    apply Forall_cons in Hd as [Hd3 _]. rewrite Hd1, Hd2, Hd3. by run.
Qed.

Lemma convertUsageToTimings_defined (usage : value) :
  nullish usage = false → convertUsageToTimings usage = Ok (timings_of usage).
Proof.
  intros Hu. unfold convertUsageToTimings. by rewrite !getp_defined.
Qed.

(** X12. Without streaming, a successful response whose body parses and
    yields a [content] with something else than white space, for a
    caller whose [onModel] and [onComplete] return normally:
    [sendMessage] invokes [onModel] with the model if the body names
    one, then [onComplete] once with the content, the reasoning
    ([undefined] if empty) and the timings of [usage] ([undefined] if
    [usage] is missing), and resolves with the content; [onError] is not
    invoked. *)
Theorem answer_is_completed_and_returned (messages : list Message) (options : Options)
    (signal : bool) (fetch : gmap jsstring BodyValue → result Response)
    (response : Response) (body : jsstring) (data : value)
    (texts : jsstring * jsstring) (w : World) :
  default false (stream options) = false →
  fetch (JSON_stringify (requestBody options (convertMessagesToInput messages)))
  = Ok response →
  ok response = true →
  quiet (onModel (callbacks options)) →
  quiet (onComplete (callbacks options)) →
  text response = Ok body →
  blank body = false →
  JSON_parse body = Some data →
  extract_texts data = Ok texts →
  blank texts.1 = false →
  let model := getp_opt data (js "model") in
  let usage := getp_opt data (js "usage") in
  sendMessage messages options signal fetch (w, tt)
  = ((mkWorld
        (calls w
         ++ (if truthy model
             then invocation (onModel (callbacks options)) (OnModel model) else [])
         ++ invocation (onComplete (callbacks options))
              (OnComplete texts.1 (nonempty texts.2)
                 (if truthy usage then Some (timings_of usage) else None)))
        (aborted w), tt),
     Ok (Some texts.1)).
Proof.
  intros Hstream Hfetch Hok Hqm Hqc Htext Hbody Hparse Htexts Hblank model usage.
  rewrite (sendMessage_nonstream _ _ _ _ response) by done.
  rewrite bind_run. unfold handleNonStreamResponse, try_catch, parseJSON.
  rewrite Htext. run. rewrite Hbody, Hparse. run.
  assert (Hobj : nullish data = false).
  { destruct data; try done; discriminate Htexts. }
  rewrite getp_defined by done. run. fold model.
  destruct (truthy model); run; rewrite ?call_quiet by done; run;
    rewrite Htexts; run; rewrite Hblank; run; rewrite getp_defined by done; run;
    fold usage;
    (destruct (truthy usage) eqn:Hu;
     [rewrite convertUsageToTimings_defined by (by destruct usage) |];
     cbn [mbind result_bind mret result_ret]; run; rewrite call_quiet by done; run;
     cbn [calls aborted]; by rewrite <- ?app_assoc).
Qed.

(** X13. The walk over [output]: when [output] is an array of items none
    of which is [null] and whose [content] is missing or an array of
    parts none of which is [null] and whose [text] converts to a string
    (any parsed value but an object with a [toString] property of its
    own, or an array that holds one), the content is the concatenation,
    in order, of the [text] of the [output_text] parts of the [message]
    items, each converted to a string (the empty string for a falsy
    one), and the reasoning that of the [reasoning_summary_text] parts
    of the [reasoning] items; parts of other types and items of other
    types add nothing. *)
Theorem extract_texts_concatenates (data : value) (items : list value) :
  getp_opt data (js "output") = JArr items →
  Forall walkable items →
  extract_texts data
  = Ok (items ≫= item_text (js "message") (js "output_text"),
        items ≫= item_text (js "reasoning") (js "reasoning_summary_text")).
Proof.
  intros Hout Hitems. unfold extract_texts.
  assert (Hdata : nullish data = false) by (by destruct data).
  rewrite getp_defined by done. cbn [mbind result_bind]. rewrite Hout.
  by rewrite collect_output_concat.
Qed.

End Texts.

(** ** The request *)

Ltac distinct_keys :=
  let H := fresh in intros H; vm_compute in H; discriminate H.

Section Body.
Context `{RT : Runtime}.

Lemma requestBody_merge (options : Options) (input : list WireMessage) :
  requestBody options input
  = merge_custom (requestBody (without_custom options) input) (custom options).
Proof. done. Qed.

Lemma requestBody_untouched (options : Options) (input : list WireMessage)
    (k : jsstring) :
  untouched options k →
  requestBody options input !! k = requestBody (without_custom options) input !! k.
Proof.
  intros Hk. rewrite requestBody_merge. unfold merge_custom.
  destruct (customParams (custom options)) as [params|] eqn:Hc; [| done].
  apply Object_assign_lookup_other. by apply Hk.
Qed.

Lemma assoc_app (k : jsstring) (a b : list (jsstring * value)) :
  assoc k (a ++ b) = match assoc k a with Some v => Some v | None => assoc k b end.
Proof.
  induction a as [|[k' v] a IH]; [done |]. cbn [app assoc].
  by destruct (bool_decide (k = k')).
Qed.

(** [Object.assign] copies the properties in order, so the last one of
    a name is the one that stays. *)
Lemma Object_assign_lookup (b : gmap jsstring BodyValue) (source : value)
    (k : jsstring) :
  k ≠ js "__proto__" →
  Object_assign b source !! k
  = match assoc k (reverse (own_properties source)) with
    | Some v => Some (BValue v)
    | None => b !! k
    end.
Proof.
  intros Hproto.
  unfold Object_assign. generalize (own_properties source). intros props.
  revert b. induction props as [|[k' v] props IH]; intros b; [done |].
  cbn [foldl fst snd]. rewrite IH, reverse_cons, assoc_app.
  destruct (assoc k (reverse props)); [done |]. cbn [assoc].
  destruct (decide (k = k')) as [<- | Hk].
  - rewrite (bool_decide_eq_true_2 (k = k)) by done.
    rewrite (bool_decide_eq_false_2 (k = js "__proto__")) by done.
    by rewrite lookup_insert_eq.
  - rewrite (bool_decide_eq_false_2 (k = k')) by done.
    case_bool_decide; [done |]. by rewrite lookup_insert_ne.
Qed.

(** Nothing is copied to [__proto__]. *)
Lemma Object_assign_proto (b : gmap jsstring BodyValue) (source : value) :
  Object_assign b source !! js "__proto__" = b !! js "__proto__".
Proof.
  unfold Object_assign. generalize (own_properties source). intros props.
  revert b. induction props as [|[k' v] props IH]; intros b; [done |].
  cbn [foldl fst snd]. rewrite IH. case_bool_decide; [done |].
  by rewrite lookup_insert_ne.
Qed.

(** X14. The serialized body, field by field, for the fields the custom
    parameters do not carry: [input] is the converted messages,
    [stream] is the option or [true] when it is [undefined], [store] is
    [false], [model] is there when the option is a non-empty string,
    [temperature] and [top_p] are there when the options are defined
    (zero included), as the number [JSON.stringify] writes for them
    ([null] for [NaN] and the infinities), [reasoning] is
    [{ effort: 'medium' }] unless [disableReasoningFormat] is set; and
    there is no other field than these and [max_output_tokens]. *)
Theorem request_body_fields (options : Options) (input : list WireMessage) :
  let wire := JSON_stringify (requestBody options input) in
  (untouched options (js "input") → wire !! js "input" = Some (BInput input))
  ∧ (untouched options (js "stream") →
     wire !! js "stream" = Some (BValue (JBool (default true (stream options)))))
  ∧ (untouched options (js "store") →
     wire !! js "store" = Some (BValue (JBool false)))
  ∧ (untouched options (js "model") →
     wire !! js "model" = match model options with
                          | Some ((_ :: _) as m) => Some (BValue (JStr m))
                          | _ => None
                          end)
  ∧ (untouched options (js "temperature") →
     wire !! js "temperature" = (λ t, BValue (on_the_wire t)) <$> temperature options)
  ∧ (untouched options (js "top_p") →
     wire !! js "top_p" = (λ p, BValue (on_the_wire p)) <$> top_p options)
  ∧ (untouched options (js "reasoning") →
     wire !! js "reasoning"
     = if disableReasoningFormat options then None
       else Some (BValue (JObj [(js "effort", JStr (js "medium"))])))
  ∧ (∀ k, k ∉ body_fields → untouched options k → wire !! k = None).
Proof.
  intros wire. subst wire. unfold JSON_stringify.
  repeat split; [intros Hk .. | intros k Hnew Hk];
    rewrite lookup_omap, (requestBody_untouched _ _ _ Hk); clear Hk;
    destruct options as [st mo te mt tp cu dr cb];
    unfold requestBody, without_custom, merge_custom;
    cbn [customParams stream model temperature max_tokens top_p custom
         disableReasoningFormat callbacks].
  1-7: destruct dr, tp as [p|], mt as [[n|]|], te as [t|], mo as [[|c m]|];
    repeat (rewrite lookup_insert_ne by distinct_keys);
    try rewrite lookup_insert_eq;
    try rewrite lookup_singleton_eq;
    try rewrite lookup_singleton_ne by distinct_keys;
    done.
  unfold body_fields in Hnew.
  repeat (apply not_elem_of_cons in Hnew as [? Hnew]).
  destruct dr, tp as [p|], mt as [[n|]|], te as [t|], mo as [[|c m]|];
    repeat (rewrite lookup_insert_ne by done);
    by rewrite lookup_singleton_ne by done.
Qed.

(** X15. A custom parameter overrides what [sendMessage] has computed:
    when the custom parameters carry the key [k], other than
    [__proto__], the serialized body has for [k] what [JSON.stringify]
    writes for the value of the last property named [k] (no field if
    that value is [undefined]; [null] for a number that is [NaN] or
    infinite), whatever the options say; this holds for [input] and
    [stream] as for any other key. A property named [__proto__] adds no
    field: the serialized body never has one. *)
Theorem custom_parameters_win (options : Options) (input : list WireMessage)
    (params v : value) (k : jsstring) :
  customParams (custom options) = Some params →
  assoc k (reverse (own_properties params)) = Some v →
  k ≠ js "__proto__" →
  JSON_stringify (requestBody options input) !! k = BValue <$> stringify_value v
  ∧ JSON_stringify (requestBody options input) !! js "__proto__" = None.
Proof.
  intros Hc Hk Hproto. unfold JSON_stringify.
  rewrite !lookup_omap, requestBody_merge. unfold merge_custom. rewrite Hc.
  rewrite Object_assign_lookup, Hk by done. split; [done |].
  rewrite Object_assign_proto.
  destruct options as [st mo te mt tp cu dr cb].
  unfold requestBody, without_custom, merge_custom;
    cbn [customParams stream model temperature max_tokens top_p custom
         disableReasoningFormat callbacks].
  destruct dr, tp as [p|], mt as [[n|]|], te as [t|], mo as [[|c m]|];
    repeat (rewrite lookup_insert_ne by distinct_keys);
    by rewrite lookup_singleton_ne by distinct_keys.
Qed.

(** X16. A custom text that does not parse, or that parses to a value
    without own properties ([null], a number, a boolean, an empty
    object), leaves the request body as it is without [custom]; a text
    that does not parse raises nothing. *)
Theorem custom_without_properties_is_ignored (options : Options)
    (input : list WireMessage) (s : jsstring) :
  custom options = Some (CustomText s) →
  (∀ v, JSON_parse s = Some v → own_properties v = []) →
  requestBody options input = requestBody (without_custom options) input.
Proof.
  intros Hc Hs. rewrite requestBody_merge. unfold merge_custom, customParams, parseJSON.
  rewrite Hc. destruct s as [|c s]; [done |].
  destruct (JSON_parse (c :: s)) as [v|] eqn:Hv; [| done].
  unfold Object_assign. by rewrite (Hs v eq_refl).
Qed.

(** X17. With the [stream] option [undefined] (and no custom [stream]),
    the request asks the server to stream ([stream: true] in the body),
    while the response is handed to the non-stream handler. *)
Theorem default_stream_is_not_streamed (messages : list Message) (options : Options)
    (signal : bool) (fetch : gmap jsstring BodyValue → result Response)
    (response : Response) (w : World) :
  stream options = None →
  untouched options (js "stream") →
  fetch (JSON_stringify (requestBody options (convertMessagesToInput messages)))
  = Ok response →
  ok response = true →
  JSON_stringify (requestBody options (convertMessagesToInput messages)) !! js "stream"
  = Some (BValue (JBool true))
  ∧ sendMessage messages options signal fetch (w, tt)
    = (content ← handleNonStreamResponse response (callbacks options);
       mret (Some content)) (w, tt).
Proof.
  intros Hstream Hk Hfetch Hok. split.
  - unfold JSON_stringify. rewrite lookup_omap, (requestBody_untouched _ _ _ Hk).
    destruct options as [st mo te mt tp cu dr cb]. cbn [stream] in Hstream. subst st.
    unfold requestBody, without_custom, merge_custom;
    cbn [customParams stream model temperature max_tokens top_p custom
         disableReasoningFormat callbacks].
    destruct dr, tp as [p|], mt as [[n|]|], te as [t|], mo as [[|c m]|];
    repeat (rewrite lookup_insert_ne by distinct_keys);
    try rewrite lookup_insert_eq; done.
  - apply (sendMessage_nonstream _ _ _ _ response); [by rewrite Hstream | done | done].
Qed.

(** X18. A stored message with at least one attachment is never
    dropped, whatever its role and text; its content is a sequence that
    starts with the text of the message when that is not empty and
    holds, for every attachment: the image URL of an image; the file
    banner and text of a text file or legacy context; the data of a
    recording with format [wav] when its MIME type contains [wav] and
    [mp3] otherwise; every page image of a PDF processed as images; the
    PDF banner and text of any other PDF. *)
Theorem attachments_reach_the_wire (messages : list Message) (m : DatabaseMessage)
    (extras : list DatabaseMessageExtra) :
  Stored m ∈ messages →
  db_extra m = Some extras →
  extras ≠ [] →
  ∃ parts : list WirePart,
    mkWireMessage (map_role (db_role m)) (Parts parts) ∈ convertMessagesToInput messages
    ∧ (db_content m ≠ [] → head parts = Some (input_text (Some (db_content m))))
    ∧ (∀ name url, ImageFile name url ∈ extras → input_image (Some url) ∈ parts)
    ∧ (∀ name text, TextFile name text ∈ extras ∨ LegacyContext name text ∈ extras →
         input_text (Some (file_banner (js "File") name text)) ∈ parts)
    ∧ (∀ name data mime, AudioFile name data mime ∈ extras →
         input_audio data (if includes mime (js "wav") then js "wav" else js "mp3")
         ∈ parts)
    ∧ (∀ name text urls url, PdfFile name text true (Some urls) ∈ extras →
         url ∈ urls → input_image (Some url) ∈ parts)
    ∧ (∀ name text asImages images, PdfFile name text asImages images ∈ extras →
         asImages = false ∨ images = None →
         input_text (Some (file_banner (js "PDF File") name text)) ∈ parts).
Proof.
  intros Hm Hextra Hne. exists (convertExtrasToContent m).
  assert (Hconv : convertMessage (Stored m)
                  = mkWireMessage (map_role (db_role m)) (Parts (convertExtrasToContent m))).
  { cbn [convertMessage]. rewrite Hextra. by destruct extras. }
  assert (Hin : ∀ extra part, extra ∈ extras → part ∈ convertExtra extra →
                              part ∈ convertExtrasToContent m).
  { intros extra part He Hp. unfold convertExtrasToContent. rewrite Hextra.
    apply elem_of_app. right. apply list_elem_of_bind. by exists extra. }
  split.
  { rewrite convertMessagesToInput_filter. apply list_elem_of_filter.
    split; [apply andb_false_r |]. rewrite <- Hconv. by apply list_elem_of_fmap_2. }
  split.
  { intros Hc. unfold convertExtrasToContent. by destruct (db_content m). }
  repeat split.
  - intros name url H. apply (Hin _ _ H). cbn [convertExtra]. set_solver.
  - intros name text [H | H]; apply (Hin _ _ H); cbn [convertExtra]; set_solver.
  - intros name data mime H. apply (Hin _ _ H). cbn [convertExtra]. set_solver.
  - intros name text urls url H Hurl. apply (Hin _ _ H). cbn [convertExtra].
    by apply (list_elem_of_fmap_2 (λ imageUrl, input_image (Some imageUrl))).
  - intros name text asImages images H Hcase. apply (Hin _ _ H). cbn [convertExtra].
    destruct Hcase as [-> | ->]; [| destruct asImages]; set_solver.
Qed.

Lemma convertExtra_audio (extra : DatabaseMessageExtra) (data format : jsstring) :
  input_audio data format ∈ convertExtra extra →
  format = js "wav" ∨ format = js "mp3".
Proof.
  destruct extra as [| | |name base64Data mimeType|name text [] [urls|]|];
    cbn [convertExtra]; intros H;
    try (apply list_elem_of_fmap in H as (url & [=] & _));
    repeat (apply elem_of_cons in H as [[=] | H]); try (by apply elem_of_nil in H).
  subst. destruct (includes mimeType (js "wav")); auto.
Qed.

Lemma convertApiContentParts_audio (parts : list ApiChatMessageContentPart)
    (data format : jsstring) :
  input_audio data format ∈ convertApiContentParts parts → format ≠ [].
Proof.
  unfold convertApiContentParts. intros (part & H & _)%list_elem_of_fmap.
  destruct (str_eqb (part_type part) (js "text")); [discriminate H |].
  destruct (str_eqb (part_type part) (js "image_url")); [discriminate H |].
  destruct (str_eqb (part_type part) (js "input_audio")); [| discriminate H].
  injection H as _ ->.
  by destruct (part_input_audio part) as [[d [|c f]]|].
Qed.

(** X19. No audio part leaves [convertMessagesToInput] without a format:
    whichever shape the message had, the format of an [input_audio]
    part is not the empty string. *)
Theorem audio_parts_name_a_format (messages : list Message) (w : WireMessage)
    (parts : list WirePart) (data format : jsstring) :
  w ∈ convertMessagesToInput messages →
  content w = Parts parts →
  input_audio data format ∈ parts →
  format ≠ [].
Proof.
  rewrite convertMessagesToInput_filter.
  intros [_ (msg & -> & _)%list_elem_of_fmap]%list_elem_of_filter Hparts Hin.
  destruct msg as [dbMsg | apiMsg]; cbn [convertMessage content] in Hparts.
  - destruct (db_extra dbMsg) as [[|extra extras]|] eqn:Hextra; try discriminate Hparts.
    injection Hparts as <-. unfold convertExtrasToContent in Hin. rewrite Hextra in Hin.
    apply elem_of_app in Hin as [Hin | Hin].
    + destruct (db_content dbMsg); [by apply elem_of_nil in Hin |].
      apply list_elem_of_singleton in Hin. discriminate Hin.
    + apply list_elem_of_bind in Hin as (x & Hin & _).
      by destruct (convertExtra_audio x data format Hin) as [-> | ->].
  - destruct (api_content apiMsg) as [s | ps]; [discriminate Hparts |].
    injection Hparts as <-. by apply (convertApiContentParts_audio ps data).
Qed.

(** X20. Each message is converted on its own: converting a
    concatenation of two lists gives the concatenation of their
    conversions, and the result is a sublist of the messages converted
    one by one, in the same order. *)
Theorem convertMessagesToInput_is_local (before after : list Message) :
  convertMessagesToInput (before ++ after)
  = convertMessagesToInput before ++ convertMessagesToInput after
  ∧ convertMessagesToInput (before ++ after) `sublist_of` convertMessage <$> (before ++ after).
Proof.
  rewrite !convertMessagesToInput_filter. split.
  - by rewrite fmap_app, filter_app.
  - apply sublist_filter.
Qed.

(** X21. Whatever the storage holds (nothing, a text that is not JSON,
    the text [null], a configuration without key) and even when reading
    it throws, [getApiKey] returns [null] or a truthy key. With [null]
    the headers are those of [getJsonHeaders]. With a key that converts
    to a string, [Authorization] is [Bearer] followed by that string,
    replacing any [Authorization] header there was, and no other header
    is touched; with a key that does not (an object with a [toString]
    property of its own, or an array that holds one), building the
    headers throws a [TypeError]. *)
Theorem api_key_is_null_or_truthy (localStorage : option (result (option jsstring)))
    (headers : gmap jsstring jsstring) :
  let apiKey := getApiKey localStorage in
  (apiKey = JNull ∨ truthy apiKey = true)
  ∧ (apiKey = JNull → requestHeaders headers apiKey = Ok headers)
  ∧ (apiKey ≠ JNull →
     requestHeaders headers apiKey
     = if convertible apiKey
       then Ok (<[js "Authorization" := js "Bearer " ++ string_of apiKey]> headers)
       else fault NoPrimitive).
Proof.
  intros apiKey.
  assert (Hkey : apiKey = JNull ∨ truthy apiKey = true).
  { subst apiKey. unfold getApiKey.
    destruct localStorage as [[[[|c s]|]|t]|]; cbn [mbind result_bind mret result_ret];
      auto.
    destruct (parseJSON (c :: s)) as [config|]; cbn [mbind result_bind]; auto.
    destruct (getp config (js "apiKey")) as [v|]; cbn [mbind result_bind mret result_ret];
      auto.
    unfold or_else. destruct (truthy v) eqn:Hv; auto. }
  split; [done |]. unfold requestHeaders.
  split; [by intros -> |].
  intros Hne. destruct Hkey as [? | ->]; [done |].
  rewrite toString_convertible. by destruct (convertible apiKey).
Qed.

End Body.

(** ** The service on closed inputs *)

Section Closed.
Import Reference Examples.

Lemma listener_well_behaved : well_behaved listener.
Proof. repeat split; by intros f history arg [= <-]. Qed.

(** Two deltas around a malformed payload, cut in the middle of it. *)
Lemma sandwich_is_served :
  ∃ (w' : World) (l' : StreamLocals),
    handleStreamResponse (with_body success (undisturbed <$> sandwich) (false, Done))
      listener true (fresh, stream_start)
    = ((w', l'), Ok tt)
    ∧ filter is_chunk (calls w') = [OnChunk (JStr (js "Hel")); OnChunk (JStr (js "lo"))]
    ∧ filter is_complete (calls w') = [OnComplete (js "Hello") None None]
    ∧ filter is_error (calls w') = [].
Proof.
  apply (malformed_event_is_skipped listener true success sandwich
           [js "event: response.output_text.delta"] [[]]
           [[]; js "event: response.output_text.delta"] [[]; js "data: [DONE]"; []]
           hello oops world
           (JObj [(js "type", JStr (js "response.output_text.delta"));
                  (js "delta", JStr (js "Hel"))])
           (JObj [(js "type", JStr (js "response.output_text.delta"));
                  (js "delta", JStr (js "lo")); (js "model", JStr (js "m1"))])
           (js "Hel") (js "lo")).
  - exact listener_well_behaved.
  - reflexivity.
  - repeat (apply List.Forall_cons;
              [apply (bool_decide_eq_false_1 _); reflexivity |]).
    apply List.Forall_nil.
  - repeat (apply List.Forall_cons; [reflexivity |]). apply List.Forall_nil.
  - reflexivity.
  - vm_compute. discriminate.
  - reflexivity.
  - reflexivity.
  - reflexivity.
  - vm_compute. discriminate.
  - vm_compute. discriminate.
  - reflexivity.
  - reflexivity.
  - reflexivity.
  - vm_compute. discriminate.
Defined.








(** The stream of [sandwich] names its model once. *)
Lemma model_is_announced_once :
  (length (filter is_model
             (calls (handleStreamResponse
                       (with_body success (undisturbed <$> sandwich) (false, Done))
                       listener true (fresh, stream_start)).1.1)) ≤ 1)%nat.
Proof.
  destruct (onModel_at_most_once
              (with_body success (undisturbed <$> sandwich) (false, Done))
              listener true fresh) as [H _].
  exact H.
Defined.

(** The usage example of the specification. *)
Lemma usage_example_converts :
  nullish usage = false
  ∧ ∃ t, convertUsageToTimings usage = Ok t
         ∧ prompt_n t = JNum 10%Z ∧ predicted_n t = JNum 5%Z ∧ cache_n t = JNum 2%Z.
Proof.
  split; [reflexivity |].
  destruct (convertUsageToTimings_total usage eq_refl)
    as [(t & Ht & Hp & Ho & Hc & _) _].
  exists t. repeat split; assumption.
Defined.

(** A 400 with an error body. *)
Lemma bad_request_is_a_server_error :
  text bad_request = Ok (json "{'error':{'message':'input is required'}}")
  ∧ message (parseErrorResponse bad_request) = js "input is required"
  ∧ name (parseErrorResponse bad_request) = js "ServerError".
Proof.
  split; [reflexivity |].
  destruct (parseErrorResponse_classified bad_request _ eq_refl) as [H _].
  apply (H (JObj [(js "error", JObj [(js "message", JStr (js "input is required"))])])
           (js "input is required")).
  - reflexivity.
  - reflexivity.
  - vm_compute. discriminate.
Defined.

(** A 404 is in the client-error class and is named [HttpError]. *)
Lemma not_found_is_an_http_error :
  (400 ≤ status not_found ∧ status not_found < 500)
  ∧ message (parseErrorResponse not_found) = js "model not found"
  ∧ name (parseErrorResponse not_found) = js "HttpError"
  ∧ name (parseErrorResponse not_found) ≠ js "ServerError".
Proof.
  split; [split; vm_compute; [discriminate | reflexivity] |].
  split; [reflexivity |].
  split; [reflexivity |].
  vm_compute. discriminate.
Qed.

(** A blank system message is dropped, one with an attachment is kept. *)
Lemma conversation_is_filtered :
  (length (convertMessagesToInput conversation) ≤ length conversation)%nat
  ∧ (convertMessage (Stored (mkDatabaseMessage (js "system") (js "  ") None))
     ∉ convertMessagesToInput conversation)
  ∧ (convertMessage (Stored (mkDatabaseMessage (js "system") (js "be brief")
                               (Some [TextFile (js "notes.txt") (js "n")])))
     ∈ convertMessagesToInput conversation).
Proof.
  destruct (convertMessagesToInput_drops_blank_developer conversation)
    as (Hlen & _ & Hdrop & Hkeep).
  split; [exact Hlen |]. split.
  - apply (Hdrop _ (js "  ")).
    + apply list_elem_of_here.
    + reflexivity.
    + reflexivity.
    + vm_compute. repeat constructor.
  - eapply Hkeep.
    + apply list_elem_of_further, list_elem_of_here.
    + reflexivity.
Defined.

(** A limit of 256 beside custom parameters that do not name the field. *)
Lemma limit_reaches_the_wire :
  JSON_stringify
    (requestBody (options None (Some (Some 256%Z))
                    (Some (CustomText (json "{'top_k':40}"))) listener) [])
  !! js "max_output_tokens" = Some (BValue (JNum 256%Z)).
Proof.
  apply (max_output_tokens_on_the_wire
           (options None (Some (Some 256%Z))
              (Some (CustomText (json "{'top_k':40}"))) listener) []).
  intros params Hparams.
  change (Some (JObj [(js "top_k", JNum 40%Z)]) = Some params) in Hparams.
  injection Hparams as <-.
  apply (bool_decide_eq_false_1 _). reflexivity.
Defined.

(** No [max_tokens], and the field is on the wire: [custom] put it there. *)
Lemma custom_sets_the_limit :
  max_tokens (options None None
                (Some (CustomText (json "{'max_output_tokens':5}"))) listener) = None
  ∧ JSON_stringify
      (requestBody (options None None
                      (Some (CustomText (json "{'max_output_tokens':5}"))) listener) [])
    !! js "max_output_tokens" = Some (BValue (JNum 5%Z)).
Proof. split; reflexivity. Qed.

(** A caller whose chunk callback throws is served to the end. *)
Lemma grumpy_is_served :
  ∃ (s' : World * StreamLocals) (new : list Call),
    handleStreamResponse (with_body success (undisturbed <$> sandwich) (false, Done))
      grumpy true (fresh, stream_start)
    = (s', Ok tt)
    ∧ Forall (λ c, is_progress c = true) new
    ∧ calls s'.1
      = calls fresh ++ new
        ++ (if true && aborted s'.1 then []
            else invocation (onComplete grumpy)
                   (OnComplete (aggregatedContent s'.2)
                      (nonempty (fullReasoningContent s'.2)) (lastTimings s'.2))).
Proof.
  apply (healthy_stream_completes_once
           (with_body success (undisturbed <$> sandwich) (false, Done))
           (mkStream (undisturbed <$> sandwich) (false, Done))
           grumpy true (fresh, stream_start)).
  - reflexivity.
  - reflexivity.
  - intros f history arg [= <-]. reflexivity.
Defined.

(** The connection drops after the events of [sandwich]. *)
Lemma dropped_stream_is_reported_twice :
  ∃ new : list Call,
    sendMessage conversation (options (Some true) None None listener) true
      (λ _, Ok (with_body success (undisturbed <$> sandwich)
                  (false, Failed (ThrowError dropped))))
      (fresh, tt)
    = ((mkWorld (calls fresh ++ new
                 ++ invocation (onError listener) (OnError dropped)
                 ++ invocation (onError listener)
                      (OnError (userFriendlyError (ThrowError dropped))))
                false, tt),
       Throw (ThrowError (userFriendlyError (ThrowError dropped))))
    ∧ Forall (λ c, is_progress c = true) new.
Proof.
  apply (stream_failure_is_reported_twice conversation
           (options (Some true) None None listener) true
           (λ _, Ok (with_body success (undisturbed <$> sandwich)
                       (false, Failed (ThrowError dropped))))
           (with_body success (undisturbed <$> sandwich)
              (false, Failed (ThrowError dropped)))
           sandwich false (ThrowError dropped) fresh).
  - reflexivity.
  - reflexivity.
  - reflexivity.
  - reflexivity.
  - exact listener_well_behaved.
  - reflexivity.
  - reflexivity.
Defined.

(** The request is aborted while the last read is awaited. *)
Lemma abort_during_a_read_reaches_onError :
  ∃ new : list Call,
    sendMessage conversation (options (Some true) None None listener) true
      (λ _, Ok (with_body success (undisturbed <$> sandwich)
                  (true, Failed (ThrowError abort_error))))
      (fresh, tt)
    = ((mkWorld (calls fresh ++ new ++ invocation (onError listener) (OnError abort_error))
                true, tt),
       Ok None)
    ∧ Forall (λ c, is_progress c = true) new.
Proof.
  apply (aborted_read_is_reported conversation
           (options (Some true) None None listener) true
           (λ _, Ok (with_body success (undisturbed <$> sandwich)
                       (true, Failed (ThrowError abort_error))))
           (with_body success (undisturbed <$> sandwich)
              (true, Failed (ThrowError abort_error)))
           sandwich true abort_error fresh).
  - reflexivity.
  - reflexivity.
  - reflexivity.
  - reflexivity.
  - exact listener_well_behaved.
  - reflexivity.
  - reflexivity.
Defined.

(** A successful response without a body, with streaming. *)
Lemma bodiless_stream_is_reported_once :
  sendMessage conversation (options (Some true) None None listener) true
    (λ _, Ok success) (fresh, tt)
  = ((mkWorld [OnError (newError (js "No response body"))] false, tt),
     Throw (ThrowError (newError (js "No response body")))).
Proof.
  apply (missing_body_is_reported_once conversation
           (options (Some true) None None listener) true (λ _, Ok success) success fresh).
  - reflexivity.
  - reflexivity.
  - reflexivity.
  - reflexivity.
  - apply listener_well_behaved.
Defined.

(** The 404 of [not_found] reaches [onError] twice. *)
Lemma not_found_is_reported_twice :
  sendMessage conversation (options (Some true) None None listener) true
    (λ _, Ok not_found) (fresh, tt)
  = ((mkWorld [OnError (mkError (js "HttpError") (js "model not found"));
               OnError (mkError (js "HttpError") (js "model not found"))] false, tt),
     Throw (ThrowError (mkError (js "HttpError") (js "model not found")))).
Proof.
  apply (http_error_is_reported_twice conversation
           (options (Some true) None None listener) true (λ _, Ok not_found)
           not_found fresh).
  - reflexivity.
  - reflexivity.
  - apply listener_well_behaved.
Defined.

(** Without streaming, an abort while the body is read makes
    [sendMessage] reject with the [AbortError]. *)
Lemma abort_while_reading_the_body_rejects :
  sendMessage conversation (options (Some false) None None listener) true
    (λ _, Ok (mkResponse true 200 (js "OK") (Throw (ThrowError abort_error)) None))
    (fresh, tt)
  = ((mkWorld [OnError abort_error] false, tt), Throw (ThrowError abort_error)).
Proof.
  apply (unreadable_body_is_reported_as_is conversation
           (options (Some false) None None listener) true
           (λ _, Ok (mkResponse true 200 (js "OK") (Throw (ThrowError abort_error)) None))
           (mkResponse true 200 (js "OK") (Throw (ThrowError abort_error)) None)
           abort_error fresh).
  - reflexivity.
  - reflexivity.
  - reflexivity.
  - apply listener_well_behaved.
  - left. exists (ThrowError abort_error). split; reflexivity.
Defined.

(** A [fetch] that fails with [Failed to fetch], with streaming. *)
Lemma failed_fetch_is_reported :
  ∃ (pre : list Call) (e : JSError),
    (ThrowError server_down : thrown) = ThrowError e
    ∧ [OnError server_down] = pre ++ invocation (onError listener) (OnError e)
    ∧ isAbortError (ThrowError server_down : thrown) = false.
Proof.
  apply (streaming_rejections_are_reported conversation
           (options (Some true) None None listener) true
           (λ _, Throw (ThrowError (mkError (js "TypeError") (js "Failed to fetch"))))
           fresh (mkWorld [OnError server_down] false)).
  - reflexivity.
  - apply listener_well_behaved.
  - reflexivity.
Defined.

(** An event of a type the handler has no branch for. *)
Lemma created_event_is_passed_over :
  process_line listener true
    (js "data: " ++ json "{'type':'response.created','delta':'x'}") (fresh, stream_start)
  = ((fresh, stream_start), Ok tt).
Proof.
  apply (idle_event_is_a_no_op listener true
           (json "{'type':'response.created','delta':'x'}")
           (JObj [(js "type", JStr (js "response.created")); (js "delta", JStr (js "x"))])
           (fresh, stream_start)).
  - reflexivity.
  - reflexivity.
  - repeat first [apply List.Forall_cons | apply List.Forall_nil | reflexivity].
  - right. repeat first [apply List.Forall_cons | apply List.Forall_nil | reflexivity].
Defined.

(** The answer of [answer], without streaming. *)
Lemma answer_is_served :
  sendMessage conversation (options None None None listener) false
    (λ _, Ok answer) (fresh, tt)
  = ((mkWorld [OnModel (JStr (js "m1"));
               OnComplete (js "Hello") (Some (js "hm"))
                 (Some (mkTimings (JNum 10%Z) (JNum 5%Z) (JNum 0%Z)))] false, tt),
     Ok (Some (js "Hello"))).
Proof.
  apply (answer_is_completed_and_returned conversation (options None None None listener)
           false (λ _, Ok answer) answer answer_body answer_data
           (js "Hello", js "hm") fresh).
  - reflexivity.
  - reflexivity.
  - reflexivity.
  - apply listener_well_behaved.
  - apply listener_well_behaved.
  - reflexivity.
  - reflexivity.
  - reflexivity.
  - reflexivity.
  - reflexivity.
Defined.

(** Its texts: the refusal part and the reasoning item add nothing to
    the content. *)
Lemma answer_texts :
  extract_texts answer_data = Ok (js "Hello", js "hm").
Proof.
  apply (extract_texts_concatenates answer_data answer_output).
  - reflexivity.
  - repeat first [apply List.Forall_cons | apply List.Forall_nil | split | reflexivity].
Defined.

(** A custom text that names [stream] twice, and [__proto__]: the last
    [stream] is sent, and no [__proto__]. *)
Lemma custom_turns_the_stream_field_off :
  JSON_stringify
    (requestBody
       (options (Some true) None
          (Some (CustomText
                   (json "{'stream':true,'__proto__':{'store':true},'stream':false}")))
          listener) [])
  !! js "stream" = Some (BValue (JBool false))
  ∧ JSON_stringify
      (requestBody
         (options (Some true) None
            (Some (CustomText
                     (json "{'stream':true,'__proto__':{'store':true},'stream':false}")))
            listener) [])
    !! js "__proto__" = None.
Proof.
  apply (custom_parameters_win
           (options (Some true) None
              (Some (CustomText
                       (json "{'stream':true,'__proto__':{'store':true},'stream':false}")))
              listener)
           [] (JObj [(js "stream", JBool false);
                     (js "__proto__", JObj [(js "store", JBool true)])])
           (JBool false) (js "stream")).
  - reflexivity.
  - reflexivity.
  - intros H. discriminate H.
Defined.

(** A custom text that is not JSON. *)
Lemma malformed_custom_is_ignored :
  requestBody (options None None (Some (CustomText oops)) listener) []
  = requestBody (without_custom (options None None (Some (CustomText oops)) listener)) [].
Proof.
  apply (custom_without_properties_is_ignored
           (options None None (Some (CustomText oops)) listener) [] oops).
  - reflexivity.
  - intros v Hv. change (None = Some v) in Hv. discriminate Hv.
Defined.

(** No [stream] option: the body says [true], the answer is not streamed. *)
Lemma unset_stream_says_true_and_is_not_streamed :
  JSON_stringify
    (requestBody (options None None None listener) (convertMessagesToInput conversation))
  !! js "stream" = Some (BValue (JBool true))
  ∧ sendMessage conversation (options None None None listener) false
      (λ _, Ok answer) (fresh, tt)
    = (content ← handleNonStreamResponse answer listener; mret (Some content)) (fresh, tt).
Proof.
  apply (default_stream_is_not_streamed conversation (options None None None listener)
           false (λ _, Ok answer) answer fresh).
  - reflexivity.
  - intros params Hparams. discriminate Hparams.
  - reflexivity.
  - reflexivity.
Defined.

(** The recordings and the scan of [voice_note] on the wire. *)
Lemma voice_note_is_converted :
  ∃ parts : list WirePart,
    mkWireMessage (js "user") (Parts parts)
    ∈ convertMessagesToInput (conversation ++ [Stored voice_note])
    ∧ head parts = Some (input_text (Some (js "listen")))
    ∧ input_audio (js "UklGRg==") (js "wav") ∈ parts
    ∧ input_audio (js "T2dnUw==") (js "mp3") ∈ parts
    ∧ input_image (Some (js "data:image/png;base64,BBBB")) ∈ parts.
Proof.
  destruct (attachments_reach_the_wire (conversation ++ [Stored voice_note]) voice_note
              recordings)
    as (parts & Hin & Hhead & _ & _ & Haudio & Hpdf & _).
  - apply list_elem_of_further, list_elem_of_further, list_elem_of_further,
      list_elem_of_here.
  - reflexivity.
  - discriminate.
  - exists parts. split; [exact Hin |].
    split; [apply Hhead; discriminate |].
    split; [exact (Haudio _ _ _ (list_elem_of_here _ _)) |].
    split; [exact (Haudio _ _ _ (list_elem_of_further _ _ _ (list_elem_of_here _ _))) |].
    apply (Hpdf (js "scan.pdf") (js "text of the scan")
             [js "data:image/png;base64,AAAA"; js "data:image/png;base64,BBBB"]).
    + apply list_elem_of_further, list_elem_of_further, list_elem_of_here.
    + apply list_elem_of_further, list_elem_of_here.
Defined.

(** A recording that names no format is sent as [wav]. *)
Lemma spoken_names_a_format :
  convertMessagesToInput [spoken]
  = [mkWireMessage (js "user") (Parts [input_audio (js "UklGRg==") (js "wav")])]
  ∧ js "wav" ≠ [].
Proof.
  split; [reflexivity |].
  apply (audio_parts_name_a_format [spoken]
           (mkWireMessage (js "user") (Parts [input_audio (js "UklGRg==") (js "wav")]))
           [input_audio (js "UklGRg==") (js "wav")] (js "UklGRg==") (js "wav")).
  - apply list_elem_of_here.
  - reflexivity.
  - apply list_elem_of_here.
Defined.

(** The two deltas of [sandwich], and nothing for its malformed line. *)
Lemma sandwich_is_delivered_in_order :
  ∃ (new : list Call) (l' : StreamLocals),
    handleStreamResponse (with_body success (undisturbed <$> sandwich) (false, Done))
      listener true (fresh, stream_start)
    = ((mkWorld (calls fresh ++ new
                 ++ invocation (onComplete listener)
                      (OnComplete (js "Hello")
                         (nonempty (fullReasoningContent l')) (lastTimings l')))
                false, l'), Ok tt)
    ∧ Forall (λ c, is_progress c = true) new
    ∧ filter is_chunk new = [OnChunk (JStr (js "Hel")); OnChunk (JStr (js "lo"))].
Proof.
  apply (text_deltas_are_delivered_in_order listener true listener_well_behaved
           (with_body success (undisturbed <$> sandwich) (false, Done)) sandwich fresh).
  - reflexivity.
  - reflexivity.
Defined.

End Closed.
